(** * GoFind: a shallow embedding of [main.go]

    GoFind walks a directory tree and reports the files whose lines contain
    one of a list of keywords or match one of a list of regular expressions.
    This development embeds the scanning pipeline of [main.go]
    ([NewThreadSearchFile], [SameThreadSearchFile], the two file finders,
    the two collectors, the regex loading loop of [main] and the progress
    closure [doneFunc]) and states the properties of the specification over
    that embedding.

    Conventions.
    - Go strings are byte strings: [string].
    - Go's [int] is the 64-bit signed integer of the amd64/arm64 builds the
      README describes; [uint64] counters wrap modulo [2^64].
    - A channel is modelled by the list of the values sent on it, oldest
      first.  Goroutines are run one after the other: every scan only
      touches its own file, the counters are updated by atomic additions,
      and each collector is the single reader of its channel.
    - [run] is the schedule in which every goroutine is given the time to
      finish: at least one worker reads [fileChan], every send finds its
      channel open, and both collectors have written every record they
      received when [main] returns.  [main] itself only waits for the
      finder and the scans ([wg.Wait()]), not for the collectors, and in
      the mode [newthread=true] a scan sends the line of a recovered panic
      after its [wg.Done()]: what the program has written and counted when
      it ends can fall short of [run], and never goes beyond it.
    - The deferred calls of a scan, the counter of the [sync.WaitGroup] and
      the closing of [errChan] by [main] are modelled by the tasks
      [NewThreadSearchFile_task] and [SameThreadSearchFile_task].
    - A panic is a value of [Result]; the deferred [recover] closures are
      the [match] on it.
    - Writes to the log sink ([log.Print], [log.Printf]) are not modelled. *)

From Stdlib Require Import ZArith NArith Lia Ascii String DecimalString.
From stdpp Require Import base tactics option list strings sorting.

Local Open Scope Z_scope.

(** ** The Go runtime and standard library, as far as [main.go] uses them *)

Module Go.

(** *** Machine integers *)

Definition intSize : Z := 64.
Definition maxInt : Z := 2 ^ (intSize - 1) - 1.

(** [int] arithmetic wraps around in two's complement. *)
Definition wrap_int (z : Z) : Z :=
  (z + 2 ^ (intSize - 1)) mod 2 ^ intSize - 2 ^ (intSize - 1).

(** [line++] *)
Definition int_incr (line : Z) : Z := wrap_int (line + 1).

(** [atomic.AddUint64(p, 1)] *)
Definition AddUint64 (v delta : Z) : Z := (v + delta) mod 2 ^ 64.

(** *** [fmt]: the verb [%d] on an [int] *)

Definition Sprint_d (z : Z) : string := NilEmpty.string_of_int (Z.to_int z).

(** *** [strings] on bytes *)

(** [strings.Contains(s, substr)]: [substr] occurs in [s] as a run of
    bytes; the empty string occurs everywhere. *)
Fixpoint Contains (s substr : string) : bool :=
  String.prefix substr s ||
  match s with
  | EmptyString => false
  | String _ s' => Contains s' substr
  end.

(** [strings.Join(elems, sep)] *)
Fixpoint Join (elems : list string) (sep : string) : string :=
  match elems with
  | [] => ""
  | [e] => e
  | e :: es => e +:+ sep +:+ Join es sep
  end.

(** *** Panics *)

Inductive Result (A : Type) : Type :=
| Done (a : A)
| Panic (r : string).
Global Arguments Done {A} a.
Global Arguments Panic {A} r.

Global Instance Result_ret : MRet Result := fun A a => Done a.
Global Instance Result_bind : MBind Result := fun A B f m =>
  match m with
  | Done a => f a
  | Panic r => Panic r
  end.

(** What [%v] prints for the runtime error of a method call through a nil
    [*regexp.Regexp]. *)
Definition nilDeref : string :=
  "runtime error: invalid memory address or nil pointer dereference".

(** *** [regexp], and the Unicode-aware functions of [strings]

    The regular expression engine is a library: the embedding takes it
    as an interface.  [regexp_Compile] returns the compiled pattern or the
    text of the error ([regexp.Compile] then returns a nil pointer);
    [FindString re s] is the text of the leftmost match of [re] in [s],
    and the empty string when there is none; [Regexp_String re] is the
    source text of the pattern. *)
Class Lib : Type := {
  Regexp : Type;
  regexp_Compile : string -> Regexp + string;
  FindString : Regexp -> string -> string;
  Regexp_String : Regexp -> string;
  TrimSpace : string -> string;
  ToLower : string -> string
}.

(** *** [os.OpenFile] and what reading the file delivers *)

Inductive ReadEnd : Type :=
| EOF
| ReadError (msg : string).

Record File : Type := mkFile {
  content : string;
  read_end : ReadEnd
}.

Inductive OpenResult : Type :=
| OpenOk (f : File)
| OpenErr (isPathError : bool) (msg : string).

Definition FS : Type := string -> OpenResult.

(** *** [bufio.Scanner] with the default split function [ScanLines]

    [scanner.Buffer(buf, max)] with [cap(buf) <= max]: the buffer grows
    by doubling up to [max] bytes, and a line whose bytes, with its
    newline, do not fit in it ends the scan with [ErrTooLong]. *)

Inductive ScanError : Type :=
| ErrTooLong
| ErrRead (msg : string).

Definition Error (e : ScanError) : string :=
  match e with
  | ErrTooLong => "bufio.Scanner: token too long"
  | ErrRead msg => msg
  end.

Definition newline : ascii := "010"%char.
Definition carriage_return : ascii := "013"%char.

(** [dropCR] of [bufio], on the reversed token. *)
Definition dropCR_rev (rtok : string) : string :=
  match rtok with
  | String c rest => if Ascii.eqb c carriage_return then rest else rtok
  | EmptyString => rtok
  end.

Definition token (rtok : string) : string := String.rev (dropCR_rev rtok).

(** [scanTokens max data rtok n]: the lines [scanner.Scan] delivers from
    [data], when the [n] bytes [rtok] (reversed) of the current line are
    already in the buffer, and whether the scan stopped on a full buffer. *)
Fixpoint scanTokens (max : N) (data : string) (rtok : string) (n : N)
  : list string * bool :=
  match data with
  | EmptyString =>
      if (n =? 0)%N then ([], false)
      else if (max <=? n)%N then ([], true)
      else ([token rtok], false)
  | String c rest =>
      if Ascii.eqb c newline then
        if (max <=? n)%N then ([], true)
        else let '(l, e) := scanTokens max rest "" 0%N in (token rtok :: l, e)
      else scanTokens max rest (String c rtok) (n + 1)%N
  end.

Record Scanner : Type := mkScanner {
  Lines : list string;           (* the successive [scanner.Text()] *)
  Err : option ScanError         (* [scanner.Err()] after the last [Scan] *)
}.

Definition NewScanner (max : N) (f : File) : Scanner :=
  let '(l, full) := scanTokens max (content f) "" 0%N in
  {| Lines := l;
     Err := if full then Some ErrTooLong
            else match read_end f with
                 | EOF => None
                 | ReadError msg => Some (ErrRead msg)
                 end |}.

End Go.

Import Go.

(** ** The data of [main.go] *)

Record FoundFile : Type := mkFoundFile {
  FilePath : string;
  Keywords : list string
}.

Record NumFiles : Type := mkNumFiles {
  FoundFiles : Z;
  SearchedFiles : Z;
  NumErrors : Z;
  NumIgnored : Z
}.

(** The channels [outputChan] and [errChan] of [main] and the counters
    behind the pointer [fileCounter]. *)
Record World : Type := mkWorld {
  outputChan : list FoundFile;
  errChan : list string;
  fileCounter : NumFiles
}.

(** [outputChan <- file] *)
Definition send_file (w : World) (file : FoundFile) : World :=
  {| outputChan := outputChan w ++ [file];
     errChan := errChan w;
     fileCounter := fileCounter w |}.

(** [errChan <- msg] *)
Definition send_err (w : World) (msg : string) : World :=
  {| outputChan := outputChan w;
     errChan := errChan w ++ [msg];
     fileCounter := fileCounter w |}.

(** [atomic.AddUint64(searchedFiles, 1)], with
    [searchedFiles = &fileCounter.SearchedFiles] *)
Definition add_searched (w : World) : World :=
  {| outputChan := outputChan w;
     errChan := errChan w;
     fileCounter :=
       {| FoundFiles := FoundFiles (fileCounter w);
          SearchedFiles := AddUint64 (SearchedFiles (fileCounter w)) 1;
          NumErrors := NumErrors (fileCounter w);
          NumIgnored := NumIgnored (fileCounter w) |} |}.

(** [atomic.AddUint64(&fileCounter.FoundFiles, 1)] *)
Definition add_found (w : World) : World :=
  {| outputChan := outputChan w;
     errChan := errChan w;
     fileCounter :=
       {| FoundFiles := AddUint64 (FoundFiles (fileCounter w)) 1;
          SearchedFiles := SearchedFiles (fileCounter w);
          NumErrors := NumErrors (fileCounter w);
          NumIgnored := NumIgnored (fileCounter w) |} |}.

(** One entry of the walk of [filepath.WalkDir]: the arguments
    [path], [dir] and [err] of the callback. *)
Record WalkEntry : Type := mkWalkEntry {
  path : string;
  IsDir : bool;
  err : option string
}.

Definition nl : string := String newline EmptyString.

(** [scanner.Buffer(buf, 1024*1024)] *)
Definition maxTokenSize : N := 1024 * 1024.

(** ** The functions of [main.go] *)

Section Search.
Context `{L : Lib}.

(** [fmt.Sprintf("%s = %v", filePath, err)] *)
Definition errLine (filePath msg : string) : string :=
  filePath +:+ " = " +:+ msg.

(** [fmt.Sprintf("%s::%d", kw, line)] of [NewThreadSearchFile] *)
Definition kwLine_NewThread (kw : string) (line : Z) : string :=
  kw +:+ "::" +:+ Sprint_d line.

(** [fmt.Sprintf("%s:%d", kw, line)] of [SameThreadSearchFile] *)
Definition kwLine_SameThread (kw : string) (line : Z) : string :=
  kw +:+ ":" +:+ Sprint_d line.

(** [fmt.Sprintf("%s:%s:%d", match, regex.String(), line)] *)
Definition reLine (match_ : string) (regex : Regexp) (line : Z) : string :=
  match_ +:+ ":" +:+ Regexp_String regex +:+ ":" +:+ Sprint_d line.

(** The local variables [file.Keywords] and [hit] of a scan. *)
Definition LoopState : Type := list string * bool.

(** [for _, kw := range kws { if strings.Contains(lineText, kw) { ... } }] *)
Fixpoint kwLoop (kwLine : string -> Z -> string) (lineText : string) (line : Z)
    (kws : list string) (st : LoopState) : LoopState :=
  match kws with
  | [] => st
  | kw :: kws' =>
      kwLoop kwLine lineText line kws'
        (if Contains lineText kw then (st.1 ++ [kwLine kw line], true) else st)
  end.

(** [for _, regex := range regexs { if match := regex.FindString(lineText);
    match != "" { ... } }].  A nil entry of [regexs] panics at the call. *)
Fixpoint reLoop (lineText : string) (line : Z)
    (regexs : list (option Regexp)) (st : LoopState) : Result LoopState :=
  match regexs with
  | [] => Done st
  | None :: _ => Panic nilDeref
  | Some regex :: regexs' =>
      let match_ := FindString regex lineText in
      reLoop lineText line regexs'
        (if decide (match_ = "") then st
         else (st.1 ++ [reLine match_ regex line], true))
  end.

(** [for scanner.Scan() { lineText := scanner.Text(); ...; line++ }] *)
Fixpoint scanLoop (kwLine : string -> Z -> string) (kws : list string)
    (regexs : list (option Regexp)) (lines : list string) (line : Z)
    (st : LoopState) : Result LoopState :=
  match lines with
  | [] => Done st
  | lineText :: lines' =>
      st' ← reLoop lineText line regexs (kwLoop kwLine lineText line kws st);
      scanLoop kwLine kws regexs lines' (int_incr line) st'
  end.

(** The body of [NewThreadSearchFile], up to the deferred calls. *)
Definition NewThreadSearchFile_body (fs : FS) (filePath : string)
    (kws : list string) (regexs : list (option Regexp)) (w : World)
  : World * Result unit :=
  match fs filePath with
  | OpenErr isPathError msg =>
      if isPathError then (send_err w (errLine filePath msg), Done ())
      else (send_err w (errLine filePath msg), Done ())
  | OpenOk f =>
      let scanner := NewScanner maxTokenSize f in
      let cleanFP := TrimSpace filePath in
      match scanLoop kwLine_NewThread kws regexs (Lines scanner) 1 ([], false) with
      | Panic r => (w, Panic r)
      | Done (keywords, hit) =>
          let w := add_searched w in
          match Err scanner with
          | Some ErrTooLong =>
              (send_err w (errLine filePath (Error ErrTooLong)), Done ())
          | Some e => (send_err w (errLine filePath (Error e)), Done ())
          | None =>
              if hit
              then (send_file w {| FilePath := cleanFP; Keywords := keywords |},
                    Done ())
              else (w, Done ())
          end
      end
  end.

(** The deferred [recover] when [errChan] is open: a panic of the body
    becomes a message on [errChan]. *)
Definition recovered (filePath : string) (r : World * Result unit) : World :=
  match r with
  | (w, Done _) => w
  | (w, Panic r) => send_err w (errLine filePath r)
  end.

(** [NewThreadSearchFile] on the channels and the counters, when the send
    of its [recover] closure finds [errChan] open.  The deferred
    [wg.Done()], which runs before that closure, is in
    [NewThreadSearchFile_task]. *)
Definition NewThreadSearchFile (fs : FS) (filePath : string)
    (kws : list string) (regexs : list (option Regexp)) (w : World) : World :=
  recovered filePath (NewThreadSearchFile_body fs filePath kws regexs w).

(** [for _, ignore := range ignored_types { if strings.Contains(
    strings.ToLower(path), strings.ToLower(ignore)) { return nil } }]:
    [true] when the loop returns from the callback. *)
Fixpoint ignoreLoop (path : string) (ignored_types : list string) : bool :=
  match ignored_types with
  | [] => false
  | ignore :: rest =>
      if Contains (ToLower path) (ToLower ignore) then true
      else ignoreLoop path rest
  end.

(** [walkFunc] of [NewThreadFileFinder]; the goroutine it starts is run
    on the spot. *)
Definition NewThread_walkFunc (fs : FS) (keywords : list string)
    (regexs : list (option Regexp)) (ignored_types : list string)
    (w : World) (e : WalkEntry) : World :=
  match err e with
  | Some msg => send_err w (errLine (path e) msg)
  | None =>
      if IsDir e then w
      else if ignoreLoop (path e) ignored_types then w
      else NewThreadSearchFile fs (path e) keywords regexs (add_found w)
  end.

Definition NewThreadFileFinder (fs : FS) (walk : list WalkEntry)
    (keywords : list string) (regexs : list (option Regexp))
    (ignored_types : list string) (w : World) : World :=
  foldl (NewThread_walkFunc fs keywords regexs ignored_types) w walk.

(** The closure [SameThreadSearchFile] runs for each [file] it receives,
    up to its deferred [recover]. *)
Definition SameThreadSearchFile_body (fs : FS) (kws : list string)
    (regexs : list (option Regexp)) (file : FoundFile) (w : World)
  : World * Result unit :=
  let filePath := FilePath file in
  match fs filePath with
  | OpenErr isPathError msg =>
      if isPathError then (send_err w (errLine filePath msg), Done ())
      else (send_err w (errLine filePath msg), Done ())
  | OpenOk f =>
      let scanner := NewScanner maxTokenSize f in
      match scanLoop kwLine_SameThread kws regexs (Lines scanner) 1
              (Keywords file, false) with
      | Panic r => (w, Panic r)
      | Done (keywords, hit) =>
          let w := add_searched w in
          match Err scanner with
          | Some ErrTooLong =>
              (send_err w (errLine filePath (Error ErrTooLong)), Done ())
          | Some e => (send_err w (errLine filePath (Error e)), Done ())
          | None =>
              if hit
              then (send_file w {| FilePath := filePath; Keywords := keywords |},
                    Done ())
              else (w, Done ())
          end
      end
  end.

Definition SameThreadSearchFile_file (fs : FS) (kws : list string)
    (regexs : list (option Regexp)) (w : World) (file : FoundFile) : World :=
  recovered (FilePath file) (SameThreadSearchFile_body fs kws regexs file w).

(** [for file := range fileChan { func() { ... }() }] *)
Definition SameThreadSearchFile (fs : FS) (kws : list string)
    (regexs : list (option Regexp)) (fileChan : list FoundFile) (w : World)
  : World :=
  foldl (SameThreadSearchFile_file fs kws regexs) w fileChan.

(** [walkFunc] of [SameThreadFileFinder]: the world and the files sent on
    [fileChan]. *)
Definition SameThread_walkFunc (ignored_types : list string)
    (s : World * list FoundFile) (e : WalkEntry) : World * list FoundFile :=
  let '(w, fileChan) := s in
  match err e with
  | Some msg => (send_err w (errLine (path e) msg), fileChan)
  | None =>
      if IsDir e then (w, fileChan)
      else if ignoreLoop (path e) ignored_types then (w, fileChan)
      else (add_found w,
            fileChan ++ [{| FilePath := path e; Keywords := [] |}])
  end.

Definition SameThreadFileFinder (walk : list WalkEntry)
    (ignored_types : list string) (w : World) : World * list FoundFile :=
  foldl (SameThread_walkFunc ignored_types) (w, []) walk.

(** [FileCollector]: the lines appended to the output file. *)
Definition FileCollector (filesChan : list FoundFile) : list string :=
  map (fun filePath =>
         "Path: " +:+ FilePath filePath +:+ " | Keywords: " +:+
         Join (Keywords filePath) " & " +:+ nl) filesChan.

(** [ErrorCollector]: the lines appended to the error file and the
    counter [numErrors] after them. *)
Fixpoint ErrorCollector (errChan : list string) (numErrors : Z)
  : list string * Z :=
  match errChan with
  | [] => ([], numErrors)
  | fileErrorPath :: rest =>
      let '(out, n) := ErrorCollector rest (AddUint64 numErrors 1) in
      ((fileErrorPath +:+ nl) :: out, n)
  end.

(** The loop of [main] over the lines of the regex file: the slice
    [regexs] and the diagnostics printed. *)
Fixpoint loadRegexs (lines : list string) (regexs : list (option Regexp))
    (printed : list string) : list (option Regexp) * list string :=
  match lines with
  | [] => (regexs, printed)
  | text :: rest =>
      let cleanRE := TrimSpace text in
      if decide (cleanRE = "") then loadRegexs rest regexs printed
      else
        match regexp_Compile cleanRE with
        | inl regex => loadRegexs rest (regexs ++ [Some regex]) printed
        | inr e =>
            loadRegexs rest (regexs ++ [None])
              (printed ++
               ["Regex (" +:+ cleanRE +:+
                ") failed to compile, this regex will not be searched: " +:+
                e +:+ nl])
        end
  end.

(** What a run leaves behind: the output file, the error file, the
    counters. *)
Record Outcome : Type := mkOutcome {
  output_file : list string;
  error_file : list string;
  counters : NumFiles
}.

(** [main] from [fileCounter := &NumFiles{...}] on, for the parsed
    inputs, in the schedule in which every goroutine finishes its work
    before [main] returns: with [newThread = false] at least one worker
    was started, every send finds its channel open, and the collectors
    have handled every record sent to them. *)
Definition run (newThread : bool) (fs : FS) (walk : list WalkEntry)
    (keywords : list string) (regexs : list (option Regexp))
    (ignored_strings : list string) : Outcome :=
  let w0 := {| outputChan := []; errChan := [];
               fileCounter := mkNumFiles 0 0 0 0 |} in
  let w :=
    if newThread
    then NewThreadFileFinder fs walk keywords regexs ignored_strings w0
    else
      let '(w1, fileChan) := SameThreadFileFinder walk ignored_strings w0 in
      SameThreadSearchFile fs keywords regexs fileChan w1 in
  let '(errs, numErrors) := ErrorCollector (errChan w) (NumErrors (fileCounter w)) in
  {| output_file := FileCollector (outputChan w);
     error_file := errs;
     counters :=
       {| FoundFiles := FoundFiles (fileCounter w);
          SearchedFiles := SearchedFiles (fileCounter w);
          NumErrors := numErrors;
          NumIgnored := NumIgnored (fileCounter w) |} |}.

End Search.

(** ** The deferred calls of a scan and the closing of [errChan]

    [main] waits for the finder and the scans with [wg.Wait()] and then
    closes [doneChan], [outputChan] and [errChan].  A send on a closed
    channel panics.

    [NewThreadSearchFile] defers its [recover] closure first and
    [wg.Done()] second, so that on the way out [wg.Done()] runs first and
    the closure, with its send on [errChan], second:
<<
    defer func() { if r := recover(); r != nil { errChan <- ...; return } }()
    defer wg.Done()
>>
    [SameThreadSearchFile] defers [wg.Done()] for the whole worker and the
    [recover] closure inside the function it calls for each file, so that
    the send of the closure comes before the [wg.Done()] of the worker.

    [Shared] is what the goroutines share: the channels and the counters,
    the counter of the [sync.WaitGroup], and whether [errChan] has been
    closed.  A scan that has not called [wg.Done()] is counted in the
    counter, so [main] is in [wg.Wait()] while the body of the scan runs
    and the sends of the body find their channels open.

    A task takes what the other goroutines do between the body of the scan
    (and, for [NewThreadSearchFile], its [wg.Done()]) and the [recover]
    closure: [others] of them, scans or the finder, call [wg.Done()], and
    then [main] is given a turn ([main_first]) or not.  What the others
    send meanwhile is left out: a scan only appends to the channels.  When
    [main] goes on to return before the closure runs, the process ends and
    the closure never runs; a task describes the goroutine that does
    run. *)

Record Shared : Type := mkShared {
  world : World;
  wg : Z;
  errChan_closed : bool
}.

Definition set_world (s : Shared) (w : World) : Shared :=
  {| world := w; wg := wg s; errChan_closed := errChan_closed s |}.

(** [wg.Done()] *)
Definition wg_Done (s : Shared) : Shared :=
  {| world := world s; wg := wg s - 1; errChan_closed := errChan_closed s |}.

(** A turn of [main] at [wg.Wait(); close(doneChan); close(outputChan);
    close(errChan)]: it stays in [wg.Wait()] while the counter is not
    zero. *)
Definition main_closes (s : Shared) : Shared :=
  if decide (wg s = 0)
  then {| world := world s; wg := wg s; errChan_closed := true |}
  else s.

(** [others] goroutines call [wg.Done()], then [main] is given a turn or
    not. *)
Definition meanwhile (others : nat) (main_first : bool) (s : Shared)
  : Shared :=
  let s := {| world := world s; wg := wg s - Z.of_nat others;
              errChan_closed := errChan_closed s |} in
  if main_first then main_closes s else s.

(** How a task ends: it returns, or its panic is not recovered and ends
    the process. *)
Inductive TaskEnd : Type :=
| Returned (s : Shared)
| Crashed (s : Shared) (r : string).

(** The panic of [errChan <- msg] on a closed channel. *)
Definition sendOnClosed : string := "send on closed channel".

Section Tasks.
Context `{L : Lib}.

(** The deferred [recover] closure: [errChan <- fmt.Sprintf("%s = %v",
    filePath, r)] panics when [errChan] is closed, and nothing recovers
    that panic. *)
Definition deferred_recover (filePath : string) (s : Shared)
    (r : Result unit) : TaskEnd :=
  match r with
  | Done _ => Returned s
  | Panic r =>
      if errChan_closed s then Crashed s sendOnClosed
      else Returned (set_world s (send_err (world s) (errLine filePath r)))
  end.

(** The goroutine [NewThreadSearchFile]: the body, the deferred
    [wg.Done()], then the deferred [recover] closure. *)
Definition NewThreadSearchFile_task (others : nat) (main_first : bool)
    (fs : FS) (filePath : string) (kws : list string)
    (regexs : list (option Regexp)) (s : Shared) : TaskEnd :=
  let '(w, r) := NewThreadSearchFile_body fs filePath kws regexs (world s) in
  let s := wg_Done (set_world s w) in
  let s := meanwhile others main_first s in
  deferred_recover filePath s r.

(** The function a worker of [SameThreadSearchFile] calls for [file]: the
    body, then the deferred [recover] closure.  The worker calls
    [wg.Done()] after its loop over [fileChan]. *)
Definition SameThreadSearchFile_task (others : nat) (main_first : bool)
    (fs : FS) (kws : list string) (regexs : list (option Regexp))
    (s : Shared) (file : FoundFile) : TaskEnd :=
  let '(w, r) := SameThreadSearchFile_body fs kws regexs file (world s) in
  let s := set_world s w in
  let s := meanwhile others main_first s in
  deferred_recover (FilePath file) s r.

End Tasks.

(** ** The workers of the mode [newthread=false]

    [main] starts [threadCount] workers, each a goroutine running
    [SameThreadSearchFile], and then runs [SameThreadFileFinder] itself.
    The channel [fileChan] is unbuffered and the workers are its only
    readers: with no worker, the first send of the finder never
    returns. *)

(** [if threadCount == 0 { threadCount = runtime.NumCPU() }] *)
Definition defaultThreadCount (NumCPU threadCount : Z) : Z :=
  if decide (threadCount = 0) then NumCPU else threadCount.

(** [for i := 0; i < threadCount; i++ { wg.Add(1); go
    SameThreadSearchFile(...) }]: the number of workers started. *)
Definition startedWorkers (threadCount : Z) : nat := Z.to_nat threadCount.

(** How the walk of [SameThreadFileFinder] goes: it returns, with the
    files sent on [fileChan], or it is blocked for good in
    [fileChan <- file]. *)
Inductive Walked : Type :=
| WalkReturned (w : World) (fileChan : list FoundFile)
| WalkBlocked (w : World) (file : FoundFile).

Section Workers.
Context `{L : Lib}.

(** [filepath.WalkDir(directory, walkFunc)] of [SameThreadFileFinder]
    when [workers] goroutines read [fileChan]. *)
Fixpoint SameThreadFileFinder_walk (workers : nat)
    (ignored_types : list string) (walk : list WalkEntry) (w : World)
    (fileChan : list FoundFile) : Walked :=
  match walk with
  | [] => WalkReturned w fileChan
  | e :: walk' =>
      match err e with
      | Some msg =>
          SameThreadFileFinder_walk workers ignored_types walk'
            (send_err w (errLine (path e) msg)) fileChan
      | None =>
          if IsDir e
          then SameThreadFileFinder_walk workers ignored_types walk' w fileChan
          else if ignoreLoop (path e) ignored_types
          then SameThreadFileFinder_walk workers ignored_types walk' w fileChan
          else
            let file := {| FilePath := path e; Keywords := [] |} in
            match workers with
            | O => WalkBlocked (add_found w) file
            | S _ =>
                SameThreadFileFinder_walk workers ignored_types walk'
                  (add_found w) (fileChan ++ [file])
            end
      end
  end.

End Workers.

(** ** The loop of [ErrorCollector], statement by statement

<<
    for fileErrorPath := range errorChan {
        atomic.AddUint64(numErrors, 1)
        log.Printf("Error occured for file: %s\n", fileErrorPath)
        f.WriteString(fileErrorPath + "\n")
    }
>>
    [main] does not wait for the collector: the process can end with the
    collector at any of these statements. *)

Module Collecting.

Inductive Control : Type :=
| AtRange                              (* about to receive *)
| Received (fileErrorPath : string)    (* received, not yet counted *)
| Counted (fileErrorPath : string).    (* counted, not yet written *)

Record State : Type := mkState {
  control : Control;
  errorChan : list string;   (* sent and not yet received, oldest first *)
  numErrors : Z;
  f : list string            (* the lines appended to the error file *)
}.

Definition start (errorChan : list string) (numErrors : Z) : State :=
  mkState AtRange errorChan numErrors [].

(** One statement of the collector; at its [range] with nothing sent it
    waits. *)
Definition step (s : State) : State :=
  match control s with
  | AtRange =>
      match errorChan s with
      | [] => s
      | fileErrorPath :: rest =>
          mkState (Received fileErrorPath) rest (numErrors s) (f s)
      end
  | Received fileErrorPath =>
      mkState (Counted fileErrorPath) (errorChan s)
        (AddUint64 (numErrors s) 1) (f s)
  | Counted fileErrorPath =>
      mkState AtRange (errorChan s) (numErrors s)
        (f s ++ [fileErrorPath +:+ nl])
  end.

Fixpoint steps (n : nat) (s : State) : State :=
  match n with
  | O => s
  | S n' => steps n' (step s)
  end.

End Collecting.

(** ** The progress closure [doneFunc] of [main]

<<
    for done := range doneChan {
        if done { break }
        for { fmt.Printf(...); time.Sleep(time.Second / 4) }
    }
>>
    [doneChan] is unbuffered: a send of [main] completes when the closure
    receives it. *)

Module Monitor.

Inductive Control : Type :=
| AtRange        (* at [range doneChan], waiting to receive *)
| Rendering      (* inside the inner [for { ... }] *)
| Returned.      (* the closure has returned *)

Record State : Type := mkState {
  control : Control;
  printed : nat          (* status lines printed so far *)
}.

(** [doneChan <- done] in [main], met by the receive of the closure; [None]
    when the closure is not at its receive and the send blocks. *)
Definition send (done : bool) (s : State) : option State :=
  match control s with
  | AtRange =>
      Some {| control := if done then Returned else Rendering;
              printed := printed s |}
  | Rendering | Returned => None
  end.

(** One turn of the closure; [closed] tells whether [main] has run
    [close(doneChan)]. *)
Definition step (closed : bool) (s : State) : State :=
  match control s with
  | AtRange =>
      if closed then {| control := Returned; printed := printed s |} else s
  | Rendering => {| control := Rendering; printed := S (printed s) |}
  | Returned => s
  end.

Fixpoint steps (closed : bool) (n : nat) (s : State) : State :=
  match n with
  | O => s
  | S n' => steps closed n' (step closed s)
  end.

(** [go doneFunc(); doneChan <- false; ...; close(doneChan)]: the closure
    takes [k] turns while the files are searched and [n] turns after the
    channel is closed. *)
Definition after_close (k n : nat) : option State :=
  s ← send false {| control := AtRange; printed := 0 |};
  Some (steps true n (steps false k s)).

End Monitor.

(** ** An instance of the library interface

    Literal patterns and the patterns [c*] for a byte [c] that is not a
    metacharacter, with the leftmost match Go returns for them; every
    other pattern is refused.  [TrimSpace] and [ToLower] are Go's on ASCII
    text.  The instance serves the examples. *)

Module Fragment.

Inductive Pattern : Type :=
| Lit (s : string)
| Star (c : ascii).

Definition is_meta (c : ascii) : bool :=
  match c with
  | "092" | "." | "+" | "*" | "?" | "(" | ")" | "|"
  | "[" | "]" | "{" | "}" | "^" | "$" => true
  | _ => false
  end%char.

Fixpoint literal (s : string) : bool :=
  match s with
  | EmptyString => true
  | String c s' => negb (is_meta c) && literal s'
  end.

Definition Compile (s : string) : Pattern + string :=
  if literal s then inl (Lit s)
  else
    match s with
    | String c (String "*" EmptyString) =>
        if is_meta c then inr ("error parsing regexp: `" +:+ s +:+ "`")
        else inl (Star c)
    | _ => inr ("error parsing regexp: `" +:+ s +:+ "`")
    end.

(** The longest run of [c] at the start of [s]: the leftmost match of
    [c*]. *)
Fixpoint run_of (c : ascii) (s : string) : string :=
  match s with
  | EmptyString => EmptyString
  | String d s' => if Ascii.eqb c d then String d (run_of c s') else EmptyString
  end.

Definition Find (p : Pattern) (s : string) : string :=
  match p with
  | Lit l => if Contains s l then l else ""
  | Star c => run_of c s
  end.

Definition Source (p : Pattern) : string :=
  match p with
  | Lit l => l
  | Star c => String c "*"
  end.

Fixpoint trim_left (s : string) : string :=
  match s with
  | EmptyString => EmptyString
  | String c s' => if Ascii.is_space c then trim_left s' else s
  end.

Definition trim (s : string) : string :=
  String.rev (trim_left (String.rev (trim_left s))).

Definition lower_ascii (c : ascii) : ascii :=
  let n := N_of_ascii c in
  if ((65 <=? n) && (n <=? 90))%N then ascii_of_N (n + 32) else c.

Fixpoint lower (s : string) : string :=
  match s with
  | EmptyString => EmptyString
  | String c s' => String (lower_ascii c) (lower s')
  end.

Definition lib : Lib :=
  {| Regexp := Pattern;
     regexp_Compile := Compile;
     FindString := Find;
     Regexp_String := Source;
     TrimSpace := trim;
     ToLower := lower |}.

End Fragment.

(** ** Match descriptors

    [main.go] keeps a match as the string it prints.  A [Descriptor] is
    the record the specification speaks of, [render] is the string the
    code builds for it, and [fileDescriptors] lists the descriptors of a
    file the way the specification orders them: line after line, and on
    one line the keywords before the patterns, each in the order of its
    list. *)

Inductive Origin : Type :=
| FromKeyword
| FromRegex.

Global Instance Origin_eq_dec : EqDecision Origin.
Proof. solve_decision. Defined.

Record Descriptor : Type := mkDescriptor {
  origin : Origin;
  term : string;        (* the keyword, or the text the pattern matched *)
  source : string;      (* the source of the pattern; empty for a keyword *)
  lineNumber : Z
}.

Section Descriptors.
Context `{L : Lib}.

Definition render (kwLine : string -> Z -> string) (d : Descriptor) : string :=
  match origin d with
  | FromKeyword => kwLine (term d) (lineNumber d)
  | FromRegex =>
      term d +:+ ":" +:+ source d +:+ ":" +:+ Sprint_d (lineNumber d)
  end.

Definition keywordDescriptor (line : Z) (kw : string) : Descriptor :=
  mkDescriptor FromKeyword kw "" line.

Definition regexDescriptor (lineText : string) (line : Z) (re : Regexp)
  : Descriptor :=
  mkDescriptor FromRegex (FindString re lineText) (Regexp_String re) line.

Definition keywordHits (lineText : string) (kws : list string) : list string :=
  filter (fun kw => Contains lineText kw = true) kws.

Definition regexHits (lineText : string) (res : list Regexp) : list Regexp :=
  filter (fun re => FindString re lineText ≠ "") res.

Definition lineDescriptors (kws : list string) (res : list Regexp)
    (lineText : string) (line : Z) : list Descriptor :=
  (keywordDescriptor line <$> keywordHits lineText kws) ++
  (regexDescriptor lineText line <$> regexHits lineText res).

Fixpoint fileDescriptors (kws : list string) (res : list Regexp)
    (lines : list string) (line : Z) : list Descriptor :=
  match lines with
  | [] => []
  | lineText :: lines' =>
      lineDescriptors kws res lineText line ++
      fileDescriptors kws res lines' (line + 1)
  end.

(** What one keyword, and one pattern, adds to [file.Keywords] on one
    line. *)
Definition keywordLines (kwLine : string -> Z -> string) (lineText : string)
    (line : Z) (kw : string) : list string :=
  if Contains lineText kw then [kwLine kw line] else [].

Definition regexLines (lineText : string) (line : Z) (re : Regexp)
  : list string :=
  if decide (FindString re lineText = "") then []
  else [reLine (FindString re lineText) re line].

(** [before d1 d2]: [d1] is of an earlier line than [d2], or of the same
    line and not a pattern match ahead of a keyword match. *)
Definition before (d1 d2 : Descriptor) : Prop :=
  lineNumber d1 < lineNumber d2 \/
  (lineNumber d1 = lineNumber d2 /\
   (origin d1 = FromKeyword \/ origin d2 = FromRegex)).

(** The descriptors of one origin on one line, in the order of the list. *)
Definition on_line (o : Origin) (n : Z) (ds : list Descriptor)
  : list Descriptor :=
  filter (fun d => lineNumber d = n /\ origin d = o) ds.

(** Line order, keywords before patterns on a line, and on each line the
    keywords in the order of [kws] and the patterns in the order of
    [res]. *)
Definition ordered (kws : list string) (res : list Regexp)
    (ds : list Descriptor) : Prop :=
  StronglySorted before ds /\
  forall n,
    (term <$> on_line FromKeyword n ds) `sublist_of` kws /\
    (source <$> on_line FromRegex n ds) `sublist_of` (Regexp_String <$> res).

(** [hit] is set only together with an append to [file.Keywords]. *)
Definition hit_inv (st : LoopState) : Prop := st.2 = true -> st.1 ≠ [].

(** The compiled patterns of a slice that may hold nil pointers. *)
Definition compiled (regexs : list (option Regexp)) : list Regexp :=
  omap id regexs.

End Descriptors.

(** ** What one scan sends

    [anyMatch kws res lines]: some keyword of [kws] occurs in some line of
    [lines], or some pattern of [res] matches text in some line.

    [Emission fs filePath kws regexs w w']: between the worlds [w] and [w']
    the scan of [filePath] has sent
    - one [FoundFile] with a non-empty match list and nothing else: the
      file opened, the read loop ran to its end, the scanner ended without
      error, and something matched;
    - or one error line and nothing else: the line of the failed open, of
      the recovered panic of a nil pattern on the first line, or of the
      error of the scanner;
    - or nothing: the file opened, the read loop ran to its end, the
      scanner ended without error, and nothing matched. *)

Section Emissions.
Context `{L : Lib}.

Definition lineMatches (kws : list string) (res : list Regexp)
    (lineText : string) : bool :=
  existsb (Contains lineText) kws ||
  existsb (fun re => bool_decide (FindString re lineText ≠ "")) res.

Definition anyMatch (kws : list string) (res : list Regexp)
    (lines : list string) : bool :=
  existsb (lineMatches kws res) lines.

(** The read loop of a scan panics: a pattern is nil and the file has a
    line. *)
Definition faults (regexs : list (option Regexp)) (f : File) : Prop :=
  None ∈ regexs /\ Lines (NewScanner maxTokenSize f) ≠ [].

(** The read loop of a scan runs to its end. *)
Definition completes (regexs : list (option Regexp)) (f : File) : Prop :=
  None ∉ regexs \/ Lines (NewScanner maxTokenSize f) = [].

Inductive Emission (fs : FS) (filePath : string) (kws : list string)
    (regexs : list (option Regexp)) (w w' : World) : Prop :=
| emits_FileResult (f : File) (file : FoundFile) :
    fs filePath = OpenOk f ->
    completes regexs f ->
    Err (NewScanner maxTokenSize f) = None ->
    anyMatch kws (compiled regexs) (Lines (NewScanner maxTokenSize f)) = true ->
    FilePath file = filePath \/ FilePath file = TrimSpace filePath ->
    Keywords file ≠ [] ->
    outputChan w' = outputChan w ++ [file] ->
    errChan w' = errChan w ->
    Emission fs filePath kws regexs w w'
| emits_ErrorRecord (msg : string) :
    (exists isPathError e,
        fs filePath = OpenErr isPathError e /\ msg = errLine filePath e) \/
    (exists f,
        fs filePath = OpenOk f /\ faults regexs f /\
        msg = errLine filePath nilDeref) \/
    (exists f e,
        fs filePath = OpenOk f /\ completes regexs f /\
        Err (NewScanner maxTokenSize f) = Some e /\
        msg = errLine filePath (Error e)) ->
    outputChan w' = outputChan w ->
    errChan w' = errChan w ++ [msg] ->
    Emission fs filePath kws regexs w w'
| emits_nothing (f : File) :
    fs filePath = OpenOk f ->
    completes regexs f ->
    Err (NewScanner maxTokenSize f) = None ->
    anyMatch kws (compiled regexs) (Lines (NewScanner maxTokenSize f)) = false ->
    outputChan w' = outputChan w ->
    errChan w' = errChan w ->
    Emission fs filePath kws regexs w w'.

(** One error line and no [FoundFile]; the line reports the full buffer
    when no pattern of the slice is nil. *)
Definition discards (filePath : string) (regexs : list (option Regexp))
    (w w' : World) : Prop :=
  outputChan w' = outputChan w /\
  exists msg, errChan w' = errChan w ++ [msg] /\
    (None ∉ regexs -> msg = errLine filePath "bufio.Scanner: token too long").

End Emissions.

(** ** Example inputs *)

Module Examples.

Definition w0 : World :=
  {| outputChan := []; errChan := []; fileCounter := mkNumFiles 0 0 0 0 |}.

Fixpoint repeat_byte (n : nat) (c : ascii) (s : string) : string :=
  match n with
  | O => s
  | S n' => repeat_byte n' c (String c s)
  end.

(** A line of [1024*1024] bytes. *)
Definition long_line : string :=
  repeat_byte (N.to_nat maxTokenSize) "a"%char "".

(** [a.txt]: line 2 holds the keyword twice; line 3 ends in CR LF. *)
Definition a_txt : File :=
  mkFile ("first line" +:+ nl +:+ "contains ERROR here, ERROR there" +:+ nl +:+
          "aab 404" +:+ String carriage_return nl) EOF.

(** [big.txt]: a keyword on line 1, then a line that fills the buffer. *)
Definition big_txt : File :=
  mkFile ("ERROR here" +:+ nl +:+ long_line) EOF.

(** [long.txt]: a keyword on line 1, a line of [1024*1024] bytes, and a
    last line. *)
Definition long_txt : File :=
  mkFile (("ERROR here" +:+ nl) +:+ long_line +:+ (nl +:+ "the end")) EOF.

(** [empty.txt]: no byte at all. *)
Definition empty_txt : File := mkFile "" EOF.

Definition fs : FS := fun name =>
  if decide (name = "a.txt") then OpenOk a_txt
  else if decide (name = "big.txt") then OpenOk big_txt
  else if decide (name = "empty.txt") then OpenOk empty_txt
  else if decide (name = "/srv/System32/foo.txt") then OpenOk a_txt
  else OpenErr true ("open " +:+ name +:+ ": permission denied").

(** A walk that meets the one file [/srv/System32/foo.txt]. *)
Definition walk_System32 : list WalkEntry :=
  [mkWalkEntry "/srv" true None;
   mkWalkEntry "/srv/System32" true None;
   mkWalkEntry "/srv/System32/foo.txt" false None].

(** A walk that meets the one file [a.txt]. *)
Definition walk_a : list WalkEntry := [mkWalkEntry "a.txt" false None].

(** A walk that meets a directory, [a.txt], a file that cannot be opened,
    an entry the walk could not read, [big.txt] and a file under
    [System32]. *)
Definition walk_mixed : list WalkEntry :=
  [mkWalkEntry "/srv" true None;
   mkWalkEntry "a.txt" false None;
   mkWalkEntry "secret.txt" false None;
   mkWalkEntry "/srv/lost" false (Some "lstat /srv/lost: no such file or directory");
   mkWalkEntry "big.txt" false None;
   mkWalkEntry "/srv/System32/foo.txt" false None].

(** The patterns [a*] and [40]. *)
Definition patterns : list (option Fragment.Pattern) :=
  [Some (Fragment.Star "a"); Some (Fragment.Lit "40")].

(** The slice [regexs] after a regex file whose one line does not
    compile. *)
Definition nil_pattern : list (option Fragment.Pattern) := [None].

(** The finder has called [wg.Done()] and one scan is still counted:
    [errChan] is open and the counter is 1. *)
Definition last_scan : Shared := mkShared w0 1 false.

End Examples.

(** ** The other loops of [main] over its input files *)

Section InputFiles.
Context `{L : Lib}.

(** The loops over the keywords file, the ignore file and the ignore-types
    file:
<<
    for scanner.Scan() {
        cleanKW := strings.TrimSpace(scanner.Text())
        if cleanKW != "" { keywords = append(keywords, cleanKW) }
    }
>>
    [loadLines lines acc] is the slice after the loop, when it was [acc]
    before. *)
Fixpoint loadLines (lines : list string) (acc : list string) : list string :=
  match lines with
  | [] => acc
  | text :: rest =>
      let clean := TrimSpace text in
      if decide (clean = "") then loadLines rest acc
      else loadLines rest (acc ++ [clean])
  end.

(** [keywords] of [main], from the keywords file. *)
Definition loadKeywords (kwf : File) : list string :=
  loadLines (Lines (NewScanner maxTokenSize kwf)) [].

(** [ignored_strings] of [main]: the loop over the ignore file, then the
    loop over the ignore-types file on the same slice. *)
Definition loadIgnored (igf igtf : File) : list string :=
  loadLines (Lines (NewScanner maxTokenSize igtf))
    (loadLines (Lines (NewScanner maxTokenSize igf)) []).

(** What the loop over the regex file appends for a line that is not
    blank: the compiled pattern, or nil. *)
Definition compileLine (cleanRE : string) : option Regexp :=
  match regexp_Compile cleanRE with
  | inl regex => Some regex
  | inr _ => None
  end.

End InputFiles.

(** ** The command line of [main] *)

(** [strings.Split(s, sep)] for a separator of one byte, the only kind
    [main] uses: the pieces of [s] between the occurrences of [sep]. *)
Fixpoint Split (s : string) (sep : ascii) : list string :=
  match s with
  | EmptyString => [EmptyString]
  | String c rest =>
      if Ascii.eqb c sep then EmptyString :: Split rest sep
      else
        match Split rest sep with
        | piece :: pieces => String c piece :: pieces
        | [] => [String c EmptyString]
        end
  end.

(** [a[1]] on a slice of strings. *)
Definition index1 (a : list string) : Result string :=
  match a with
  | _ :: x :: _ => Done x
  | _ =>
      Panic ("runtime error: index out of range [1] with length " +:+
             Sprint_d (Z.of_nat (length a)))
  end.

Definition digit (c : ascii) : option Z :=
  let n := Z.of_N (N_of_ascii c) in
  if (48 <=? n) && (n <=? 57) then Some (n - 48) else None.

Fixpoint digits (s : string) (acc : Z) : option Z :=
  match s with
  | EmptyString => Some acc
  | String c rest =>
      match digit c with
      | Some d => digits rest (10 * acc + d)
      | None => None
      end
  end.

(** [strconv.Atoi]: an optional sign and one or more decimal digits, of a
    value that fits an [int]; [None] is the error. *)
Definition Atoi (s : string) : option Z :=
  let '(neg, body) :=
    match s with
    | String "+" rest => (false, rest)
    | String "-" rest => (true, rest)
    | _ => (false, s)
    end in
  match body with
  | EmptyString => None
  | String _ _ =>
      match digits body 0 with
      | Some v =>
          let v := if neg then - v else v in
          if (- 2 ^ (intSize - 1) <=? v) && (v <=? maxInt) then Some v
          else None
      | None => None
      end
  end.

(** The variables [main] fills from its arguments. *)
Record Options : Type := mkOptions {
  outputPath : string;
  errPath : string;
  keywordsPath : string;
  regexPath : string;
  directoryPath : string;
  ignoredPath : string;
  ignoredTypesPath : string;
  threadCount : Z;
  newThread : bool
}.

(** Their values before the loop over [os.Args[1:]]. *)
Definition noOptions : Options := mkOptions "" "" "" "" "" "" "" 0 false.

(** One turn of the loop over the arguments: it goes on with new options,
    or [main] returns; either way with what it printed. *)
Inductive Step : Type :=
| Next (o : Options) (printed : list string)
| Stop (printed : list string).

Section Arguments.
Context `{L : Lib}.

Definition parseArg (arg : string) (o : Options) : Result Step :=
  if Contains arg "directory=" then
    v ← index1 (Split arg "=");
    Done (Next (mkOptions (outputPath o) (errPath o) (keywordsPath o)
                  (regexPath o) v (ignoredPath o) (ignoredTypesPath o)
                  (threadCount o) (newThread o)) [])
  else if Contains arg "ignore=" then
    v ← index1 (Split arg "=");
    Done (Next (mkOptions (outputPath o) (errPath o) (keywordsPath o)
                  (regexPath o) (directoryPath o) v (ignoredTypesPath o)
                  (threadCount o) (newThread o)) [])
  else if Contains arg "ignoretypes=" then
    v ← index1 (Split arg "=");
    Done (Next (mkOptions (outputPath o) (errPath o) (keywordsPath o)
                  (regexPath o) (directoryPath o) (ignoredPath o) v
                  (threadCount o) (newThread o)) [])
  else if Contains arg "keywords=" then
    v ← index1 (Split arg "=");
    Done (Next (mkOptions (outputPath o) (errPath o) v
                  (regexPath o) (directoryPath o) (ignoredPath o)
                  (ignoredTypesPath o) (threadCount o) (newThread o)) [])
  else if Contains arg "regex=" then
    v ← index1 (Split arg "=");
    Done (Next (mkOptions (outputPath o) (errPath o) (keywordsPath o)
                  v (directoryPath o) (ignoredPath o)
                  (ignoredTypesPath o) (threadCount o) (newThread o)) [])
  else if Contains arg "output=" then
    v ← index1 (Split arg "=");
    Done (Next (mkOptions v (errPath o) (keywordsPath o)
                  (regexPath o) (directoryPath o) (ignoredPath o)
                  (ignoredTypesPath o) (threadCount o) (newThread o)) [])
  else if Contains arg "error=" then
    v ← index1 (Split arg "=");
    Done (Next (mkOptions (outputPath o) v (keywordsPath o)
                  (regexPath o) (directoryPath o) (ignoredPath o)
                  (ignoredTypesPath o) (threadCount o) (newThread o)) [])
  else if Contains arg "newthread=" then
    v ← index1 (Split arg "=");
    let value := ToLower v in
    if decide (value = "true") then
      Done (Next (mkOptions (outputPath o) (errPath o) (keywordsPath o)
                    (regexPath o) (directoryPath o) (ignoredPath o)
                    (ignoredTypesPath o) (threadCount o) true) [])
    else if decide (value = "false") then
      Done (Next (mkOptions (outputPath o) (errPath o) (keywordsPath o)
                    (regexPath o) (directoryPath o) (ignoredPath o)
                    (ignoredTypesPath o) (threadCount o) false) [])
    else
      Done (Stop ["Invalid value for newthread. Must be 'true' or 'false' exactly." +:+ nl])
  else if Contains arg "threadcount=" then
    v ← index1 (Split arg "=");
    match Atoi v with
    | None =>
        Done (Stop ["Invalid value for threadcount. Must be an integer." +:+ nl])
    | Some customThreadCount =>
        Done (Next (mkOptions (outputPath o) (errPath o) (keywordsPath o)
                      (regexPath o) (directoryPath o) (ignoredPath o)
                      (ignoredTypesPath o) customThreadCount (newThread o)) [])
    end
  else Done (Next o ["Unknown argument: " +:+ arg +:+ nl]).

(** [for _, arg := range args { ... }]: the options after the loop, or
    [None] when [main] returned from inside it, and what was printed. *)
Fixpoint parseArgs (args : list string) (o : Options) (printed : list string)
  : Result (option Options * list string) :=
  match args with
  | [] => Done (Some o, printed)
  | arg :: rest =>
      step ← parseArg arg o;
      match step with
      | Next o' p => parseArgs rest o' (printed ++ p)
      | Stop p => Done (None, printed ++ p)
      end
  end.

End Arguments.

(** The options that name a path, their keys on the command line and the
    variables they set. *)
Inductive PathOption : Type :=
| Directory | Ignore | IgnoreTypes | Keywords_ | Regex | Output | Error_.

Definition key (k : PathOption) : string :=
  match k with
  | Directory => "directory"
  | Ignore => "ignore"
  | IgnoreTypes => "ignoretypes"
  | Keywords_ => "keywords"
  | Regex => "regex"
  | Output => "output"
  | Error_ => "error"
  end.

Definition setPath (k : PathOption) (v : string) (o : Options) : Options :=
  match k with
  | Directory =>
      mkOptions (outputPath o) (errPath o) (keywordsPath o) (regexPath o) v
        (ignoredPath o) (ignoredTypesPath o) (threadCount o) (newThread o)
  | Ignore =>
      mkOptions (outputPath o) (errPath o) (keywordsPath o) (regexPath o)
        (directoryPath o) v (ignoredTypesPath o) (threadCount o) (newThread o)
  | IgnoreTypes =>
      mkOptions (outputPath o) (errPath o) (keywordsPath o) (regexPath o)
        (directoryPath o) (ignoredPath o) v (threadCount o) (newThread o)
  | Keywords_ =>
      mkOptions (outputPath o) (errPath o) v (regexPath o)
        (directoryPath o) (ignoredPath o) (ignoredTypesPath o)
        (threadCount o) (newThread o)
  | Regex =>
      mkOptions (outputPath o) (errPath o) (keywordsPath o) v
        (directoryPath o) (ignoredPath o) (ignoredTypesPath o)
        (threadCount o) (newThread o)
  | Output =>
      mkOptions v (errPath o) (keywordsPath o) (regexPath o)
        (directoryPath o) (ignoredPath o) (ignoredTypesPath o)
        (threadCount o) (newThread o)
  | Error_ =>
      mkOptions (outputPath o) v (keywordsPath o) (regexPath o)
        (directoryPath o) (ignoredPath o) (ignoredTypesPath o)
        (threadCount o) (newThread o)
  end.

(** [has_byte c s]: the byte [c] occurs in [s]. *)
Fixpoint has_byte (c : ascii) (s : string) : bool :=
  match s with
  | EmptyString => false
  | String d rest => Ascii.eqb c d || has_byte c rest
  end.

(** ** What a walk and a scan come to

    The entries a finder dispatches, and for a dispatched file whether its
    read loop finishes, which error line its scan sends and whether it
    sends a [FoundFile]. *)

Section WalkSummary.
Context `{L : Lib}.

Definition is_nil (r : option Regexp) : bool :=
  match r with
  | None => true
  | Some _ => false
  end.

Definition has_nil (regexs : list (option Regexp)) : bool :=
  existsb is_nil regexs.

Definition dispatched (ignored_types : list string) (e : WalkEntry) : bool :=
  match err e with
  | Some _ => false
  | None => negb (IsDir e) && negb (ignoreLoop (path e) ignored_types)
  end.

Definition walkError (e : WalkEntry) : list string :=
  match err e with
  | Some msg => [errLine (path e) msg]
  | None => []
  end.

Definition no_line (scanner : Scanner) : bool :=
  match Lines scanner with
  | [] => true
  | _ :: _ => false
  end.

Definition searchable (fs : FS) (regexs : list (option Regexp))
    (filePath : string) : bool :=
  match fs filePath with
  | OpenErr _ _ => false
  | OpenOk f => negb (has_nil regexs) || no_line (NewScanner maxTokenSize f)
  end.

Definition scanError (fs : FS) (regexs : list (option Regexp))
    (filePath : string) : list string :=
  match fs filePath with
  | OpenErr _ msg => [errLine filePath msg]
  | OpenOk f =>
      if negb (has_nil regexs) || no_line (NewScanner maxTokenSize f) then
        match Err (NewScanner maxTokenSize f) with
        | Some e => [errLine filePath (Error e)]
        | None => []
        end
      else [errLine filePath nilDeref]
  end.

(** Whether some keyword or pattern matched some line of a file that was
    read to its end without error. *)
Definition reported (fs : FS) (kws : list string)
    (regexs : list (option Regexp)) (filePath : string) : bool :=
  match fs filePath with
  | OpenErr _ _ => false
  | OpenOk f =>
      match scanLoop kwLine_SameThread kws regexs
              (Lines (NewScanner maxTokenSize f)) 1 ([], false),
            Err (NewScanner maxTokenSize f) with
      | Done (_, hit), None => hit
      | _, _ => false
      end
  end.

(** The world after a scan, given the world before: the same for both
    scanners. *)
Definition scanned (fs : FS) (kws : list string)
    (regexs : list (option Regexp)) (filePath : string) (w w' : World)
  : Prop :=
  errChan w' = errChan w ++ scanError fs regexs filePath /\
  length (outputChan w') =
    (length (outputChan w) +
     if reported fs kws regexs filePath then 1 else 0)%nat /\
  fileCounter w' =
    if searchable fs regexs filePath then fileCounter (add_searched w)
    else fileCounter w.

(** The error lines of a run, entry by entry. *)
Definition entryErrors (fs : FS) (regexs : list (option Regexp))
    (ignored_types : list string) (e : WalkEntry) : list string :=
  walkError e ++
  (if dispatched ignored_types e then scanError fs regexs (path e) else []).

(** The error lines of a run in the order of the walk. *)
Definition runErrors (fs : FS) (regexs : list (option Regexp))
    (ignored_types : list string) (walk : list WalkEntry) : list string :=
  walk ≫= entryErrors fs regexs ignored_types.

(** The files a run dispatches, those it reads to the end, and those it
    reports. *)
Definition foundCount (ignored_types : list string) (walk : list WalkEntry)
  : nat :=
  length (filter (fun e => dispatched ignored_types e = true) walk).

Definition searchedCount (fs : FS) (regexs : list (option Regexp))
    (ignored_types : list string) (walk : list WalkEntry) : nat :=
  length (filter (fun e => dispatched ignored_types e &&
                           searchable fs regexs (path e) = true) walk).

Definition sentCount (fs : FS) (kws : list string)
    (regexs : list (option Regexp)) (ignored_types : list string)
    (walk : list WalkEntry) : nat :=
  length (filter (fun e => dispatched ignored_types e &&
                           reported fs kws regexs (path e) = true) walk).

(** Whether the file opens, its read loop runs to the end, the scanner
    ends without error, and some keyword occurs in some line or some
    pattern matches text in some line. *)
Definition matched (fs : FS) (kws : list string)
    (regexs : list (option Regexp)) (filePath : string) : bool :=
  match fs filePath with
  | OpenErr _ _ => false
  | OpenOk f =>
      (negb (has_nil regexs) || no_line (NewScanner maxTokenSize f)) &&
      match Err (NewScanner maxTokenSize f) with
      | Some _ => false
      | None =>
          anyMatch kws (compiled regexs) (Lines (NewScanner maxTokenSize f))
      end
  end.

Definition matchedCount (fs : FS) (kws : list string)
    (regexs : list (option Regexp)) (ignored_types : list string)
    (walk : list WalkEntry) : nat :=
  length (filter (fun e => dispatched ignored_types e &&
                           matched fs kws regexs (path e) = true) walk).

(** [hit] tells exactly whether [file.Keywords] is non-empty. *)
Definition hit_exact (st : LoopState) : Prop := st.2 = true <-> st.1 ≠ [].

(** Two states of the loop with the same [hit]. *)
Definition same_hit (st1 st2 : LoopState) : Prop := st1.2 = st2.2.

(** The state of a run: [found] files dispatched, [searched] of them read
    to the end, [sent] of them sent on [outputChan], the error lines
    [errs] sent on [errChan]. *)
Definition tallies (found searched sent : nat) (errs : list string)
    (w : World) : Prop :=
  FoundFiles (fileCounter w) = Z.of_nat found mod 2 ^ 64 /\
  SearchedFiles (fileCounter w) = Z.of_nat searched mod 2 ^ 64 /\
  NumErrors (fileCounter w) = 0 /\
  length (outputChan w) = sent /\
  errChan w = errs.

End WalkSummary.

(** ** Properties of the loops over one line *)

Section LineLoops.
Context `{L : Lib}.
Implicit Types (kwLine : string -> Z -> string) (st : LoopState).
Implicit Types (kws : list string) (regexs : list (option Regexp)).
Implicit Types (res : list Regexp) (lines : list string) (line : Z).

Lemma kwLoop_keywords kwLine lineText line kws st :
  (kwLoop kwLine lineText line kws st).1 =
  st.1 ++ ((fun kw => kwLine kw line) <$> keywordHits lineText kws).
Proof.
  revert st. induction kws as [|kw kws IH]; intros st; simpl.
  - by rewrite app_nil_r.
  - rewrite IH. unfold keywordHits. rewrite filter_cons.
    destruct (Contains lineText kw); simpl; [|done].
    by rewrite <- app_assoc.
Qed.

Lemma kwLoop_hit_inv kwLine lineText line kws st :
  hit_inv st -> hit_inv (kwLoop kwLine lineText line kws st).
Proof.
  revert st. induction kws as [|kw kws IH]; intros st Hst; simpl; [done|].
  apply IH. destruct (Contains lineText kw); [|done].
  intros _. simpl. by destruct (st.1).
Qed.

Lemma reLoop_nil lineText line regexs st :
  None ∈ regexs -> reLoop lineText line regexs st = Panic nilDeref.
Proof.
  revert st. induction regexs as [|[re|] regexs IH]; intros st Hin; simpl.
  - by apply elem_of_nil in Hin.
  - apply IH. by apply elem_of_cons in Hin as [|].
  - done.
Qed.

Lemma reLoop_compiled lineText line res st :
  exists hit,
    reLoop lineText line (Some <$> res) st =
    Done (st.1 ++ ((fun re => reLine (FindString re lineText) re line)
                     <$> regexHits lineText res), hit).
Proof.
  revert st. induction res as [|re res IH]; intros st; csimpl.
  - exists (st.2). rewrite app_nil_r. by destruct st.
  - unfold regexHits. rewrite filter_cons.
    destruct (decide (FindString re lineText = "")) as [He|He].
    + rewrite decide_False by (by intros ?). apply IH.
    + rewrite decide_True by done.
      destruct (IH (st.1 ++ [reLine (FindString re lineText) re line], true))
        as [hit ->].
      exists hit. csimpl. by rewrite <- app_assoc.
Qed.

Lemma reLoop_hit_inv lineText line regexs st st' :
  hit_inv st -> reLoop lineText line regexs st = Done st' -> hit_inv st'.
Proof.
  revert st. induction regexs as [|[re|] regexs IH]; intros st Hst; simpl.
  - by intros [= <-].
  - apply IH. destruct (decide (FindString re lineText = "")); [done|].
    intros _. simpl. by destruct (st.1).
  - done.
Qed.

Lemma regexs_compiled regexs :
  None ∉ regexs -> regexs = Some <$> compiled regexs.
Proof.
  induction regexs as [|[re|] regexs IH]; intros Hnot; simpl.
  - done.
  - unfold compiled. simpl. f_equal. apply IH.
    intros Hin. apply Hnot. by right.
  - exfalso. apply Hnot. by left.
Qed.

Lemma nil_regex_cases regexs : None ∈ regexs \/ None ∉ regexs.
Proof.
  induction regexs as [|[re|] regexs [IH|IH]].
  - right. by intros ?%elem_of_nil.
  - left. by right.
  - right. by intros [|]%elem_of_cons.
  - left. by left.
  - left. by left.
Qed.

Lemma kwLoop_hit kwLine lineText line kws st :
  (kwLoop kwLine lineText line kws st).2 =
  st.2 || existsb (Contains lineText) kws.
Proof.
  revert st. induction kws as [|kw kws IH]; intros st; simpl.
  - by rewrite orb_false_r.
  - rewrite IH. destruct (Contains lineText kw); simpl; [|done].
    by rewrite orb_true_r.
Qed.

Lemma reLoop_hit lineText line res st st' :
  reLoop lineText line (Some <$> res) st = Done st' ->
  st'.2 =
  st.2 || existsb (fun re => bool_decide (FindString re lineText ≠ "")) res.
Proof.
  revert st. induction res as [|re res IH]; intros st; csimpl.
  - intros [= <-]. by rewrite orb_false_r.
  - intros Hre. rewrite (IH _ Hre).
    destruct (decide (FindString re lineText = "")) as [He|He].
    + by rewrite bool_decide_false by (by intros ?).
    + rewrite bool_decide_true by done. simpl. by rewrite orb_true_r.
Qed.

(** ** Properties of the loop over the lines *)

Lemma scanLoop_panics kwLine kws regexs lines line st :
  None ∈ regexs -> lines ≠ [] ->
  scanLoop kwLine kws regexs lines line st = Panic nilDeref.
Proof.
  intros Hin Hne. destruct lines as [|lineText lines]; [done|]. simpl.
  by rewrite reLoop_nil.
Qed.

Lemma scanLoop_finishes kwLine kws regexs lines line st :
  None ∉ regexs \/ lines = [] ->
  exists st', scanLoop kwLine kws regexs lines line st = Done st'.
Proof.
  intros [Hnot | ->]; [|by eexists].
  rewrite (regexs_compiled regexs Hnot).
  revert line st. induction lines as [|lineText lines IH]; intros line st; simpl.
  - by eexists.
  - destruct (reLoop_compiled lineText line (compiled regexs)
                (kwLoop kwLine lineText line kws st)) as [hit ->].
    simpl. apply IH.
Qed.

Lemma scanLoop_Done_inv kwLine kws regexs lines line st st' :
  scanLoop kwLine kws regexs lines line st = Done st' ->
  None ∉ regexs \/ lines = [].
Proof.
  intros Hdone. destruct (nil_regex_cases regexs) as [Hin|]; [|by left].
  right. destruct lines as [|lineText lines]; [done|].
  by rewrite scanLoop_panics in Hdone.
Qed.

Lemma scanLoop_hit_compiled kwLine kws res lines line st st' :
  scanLoop kwLine kws (Some <$> res) lines line st = Done st' ->
  st'.2 = st.2 || anyMatch kws res lines.
Proof.
  unfold anyMatch.
  revert line st. induction lines as [|lineText lines IH]; intros line st; simpl.
  - intros [= <-]. by rewrite orb_false_r.
  - destruct (reLoop lineText line (Some <$> res)
                (kwLoop kwLine lineText line kws st)) as [st1|r] eqn:Hre;
      simpl; [|done].
    intros Hloop. rewrite (IH _ _ Hloop), (reLoop_hit _ _ _ _ _ Hre), kwLoop_hit.
    unfold lineMatches. by rewrite !orb_assoc.
Qed.

(** [hit] is set exactly when a keyword occurs in a line or a pattern
    matches text in a line. *)
Lemma scanLoop_hit kwLine kws regexs lines line st st' :
  scanLoop kwLine kws regexs lines line st = Done st' ->
  st'.2 = st.2 || anyMatch kws (compiled regexs) lines.
Proof.
  intros Hloop.
  destruct (scanLoop_Done_inv _ _ _ _ _ _ _ Hloop) as [Hnot | ->].
  - rewrite (regexs_compiled regexs Hnot) in Hloop.
    by apply scanLoop_hit_compiled in Hloop.
  - simpl in Hloop. injection Hloop as <-. by rewrite orb_false_r.
Qed.

Lemma scanLoop_hit_inv kwLine kws regexs lines line st st' :
  hit_inv st -> scanLoop kwLine kws regexs lines line st = Done st' ->
  hit_inv st'.
Proof.
  revert line st. induction lines as [|lineText lines IH]; intros line st Hst; simpl.
  - by intros [= <-].
  - destruct (reLoop lineText line regexs (kwLoop kwLine lineText line kws st))
      as [st1|r] eqn:Hre; simpl; [|done].
    apply IH. eapply reLoop_hit_inv; [|done]. by apply kwLoop_hit_inv.
Qed.

End LineLoops.

(** ** One scan *)

Ltac unfold_scan :=
  unfold NewThreadSearchFile, NewThreadSearchFile_body,
    SameThreadSearchFile_file, SameThreadSearchFile_body, recovered; simpl.

Section Scan.
Context `{L : Lib}.
Implicit Types (fs : FS) (kws : list string) (regexs : list (option Regexp)).
Implicit Types (w : World) (file : FoundFile).

Lemma scanLoop_Panic_inv kwLine kws regexs lines line st r :
  scanLoop kwLine kws regexs lines line st = Panic r ->
  None ∈ regexs /\ lines ≠ [] /\ r = nilDeref.
Proof.
  intros Hpanic. destruct (nil_regex_cases regexs) as [Hin|Hnot].
  - destruct lines as [|lineText lines]; [done|].
    rewrite scanLoop_panics in Hpanic by done. by injection Hpanic as <-.
  - destruct (scanLoop_finishes kwLine kws regexs lines line st) as [st' Hd];
      [by left|congruence].
Qed.

(** The case analysis every scan goes through: the open, the read loop,
    [scanner.Err()], [hit]. *)
Ltac scan_cases fs filePath Hfs Hloop Herr :=
  destruct (fs filePath) as [?f|[] ?msg] eqn:Hfs; simpl;
  [ match goal with
    | |- context [scanLoop ?k ?kws ?rs ?ls ?n ?st] =>
        destruct (scanLoop k kws rs ls n st) as [[?keywords [|]]|?r] eqn:Hloop;
        simpl;
        [ destruct (Err (NewScanner maxTokenSize f)) as [[|?m]|] eqn:Herr; simpl
        | destruct (Err (NewScanner maxTokenSize f)) as [[|?m]|] eqn:Herr; simpl
        | ]
    end
  | | ].

(** The scan sent the line of the error of the scanner. *)
Ltac emits_scan_error Hfs Hloop Herr :=
  eapply emits_ErrorRecord;
  [ right; right; eexists _, _;
    split; [exact Hfs|];
    split; [exact (scanLoop_Done_inv _ _ _ _ _ _ _ Hloop)|];
    split; [exact Herr|reflexivity]
  | reflexivity.. ].

(** The scan sent the line of the failed open. *)
Ltac emits_open_error Hfs :=
  eapply emits_ErrorRecord;
  [ left; eexists _, _; split; [exact Hfs|reflexivity]
  | reflexivity.. ].

Lemma NewThreadSearchFile_emission fs filePath kws regexs w :
  Emission fs filePath kws regexs w
    (NewThreadSearchFile fs filePath kws regexs w).
Proof.
  unfold_scan. scan_cases fs filePath Hfs Hloop Herr.
  1,2,4,5: by emits_scan_error Hfs Hloop Herr.
  - pose proof (scanLoop_hit _ _ _ _ _ _ _ Hloop) as Hhit. simpl in Hhit.
    eapply emits_FileResult;
      [exact Hfs|exact (scanLoop_Done_inv _ _ _ _ _ _ _ Hloop)|exact Herr
      |done| | |reflexivity|reflexivity].
    + by right.
    + simpl.
      assert (hit_inv (keywords, true)) as Hinv
        by (eapply scanLoop_hit_inv; [|exact Hloop]; by intros ?).
      by apply Hinv.
  - pose proof (scanLoop_hit _ _ _ _ _ _ _ Hloop) as Hhit. simpl in Hhit.
    eapply emits_nothing;
      [exact Hfs|exact (scanLoop_Done_inv _ _ _ _ _ _ _ Hloop)|exact Herr
      |done|reflexivity|reflexivity].
  - apply scanLoop_Panic_inv in Hloop as (Hin & Hne & ->).
    eapply emits_ErrorRecord; [|reflexivity..].
    right; left. by eexists.
  - by emits_open_error Hfs.
  - by emits_open_error Hfs.
Qed.

Lemma SameThreadSearchFile_emission fs filePath kws regexs w :
  Emission fs filePath kws regexs w
    (SameThreadSearchFile_file fs kws regexs w (mkFoundFile filePath [])).
Proof.
  unfold_scan. scan_cases fs filePath Hfs Hloop Herr.
  1,2,4,5: by emits_scan_error Hfs Hloop Herr.
  - pose proof (scanLoop_hit _ _ _ _ _ _ _ Hloop) as Hhit. simpl in Hhit.
    eapply emits_FileResult;
      [exact Hfs|exact (scanLoop_Done_inv _ _ _ _ _ _ _ Hloop)|exact Herr
      |done| | |reflexivity|reflexivity].
    + by left.
    + simpl.
      assert (hit_inv (keywords, true)) as Hinv
        by (eapply scanLoop_hit_inv; [|exact Hloop]; by intros ?).
      by apply Hinv.
  - pose proof (scanLoop_hit _ _ _ _ _ _ _ Hloop) as Hhit. simpl in Hhit.
    eapply emits_nothing;
      [exact Hfs|exact (scanLoop_Done_inv _ _ _ _ _ _ _ Hloop)|exact Herr
      |done|reflexivity|reflexivity].
  - apply scanLoop_Panic_inv in Hloop as (Hin & Hne & ->).
    eapply emits_ErrorRecord; [|reflexivity..].
    right; left. by eexists.
  - by emits_open_error Hfs.
  - by emits_open_error Hfs.
Qed.

(** *** The tasks

    A task that returns leaves the channels and the counters as the scan
    run on its own does; only [NewThreadSearchFile] can meet a closed
    [errChan]. *)

Lemma meanwhile_world others main_first (s : Shared) :
  world (meanwhile others main_first s) = world s.
Proof.
  unfold meanwhile, main_closes. destruct main_first; [|done].
  by destruct (decide _).
Qed.

Lemma meanwhile_open others main_first (s : Shared) :
  errChan_closed s = false -> wg s ≠ Z.of_nat others ->
  errChan_closed (meanwhile others main_first s) = false.
Proof.
  intros Hopen Hwg. unfold meanwhile, main_closes.
  destruct main_first; [|done]. simpl.
  rewrite decide_False by lia. done.
Qed.

Lemma body_panics fs filePath kws regexs w w' r :
  NewThreadSearchFile_body fs filePath kws regexs w = (w', Panic r) ->
  w' = w /\ exists f, fs filePath = OpenOk f /\ faults regexs f.
Proof.
  unfold NewThreadSearchFile_body.
  destruct (fs filePath) as [f|[] msg]; [|done..].
  destruct (scanLoop _ _ _ _ _ _) as [[keywords hit]|r'] eqn:Hloop.
  - destruct (Err _) as [[|m]|]; [done..|]. by destruct hit.
  - intros [= <- <-]. apply scanLoop_Panic_inv in Hloop as (Hin & Hne & _).
    split; [done|]. by exists f.
Qed.

Lemma body_faults fs filePath kws regexs w f :
  fs filePath = OpenOk f -> faults regexs f ->
  NewThreadSearchFile_body fs filePath kws regexs w = (w, Panic nilDeref).
Proof.
  intros Hfs [Hin Hne]. unfold NewThreadSearchFile_body. rewrite Hfs.
  by rewrite scanLoop_panics.
Qed.

Lemma NewThreadSearchFile_task_Returned others main_first fs filePath kws
    regexs (s s' : Shared) :
  NewThreadSearchFile_task others main_first fs filePath kws regexs s =
    Returned s' ->
  world s' = NewThreadSearchFile fs filePath kws regexs (world s).
Proof.
  unfold NewThreadSearchFile_task, NewThreadSearchFile, recovered.
  destruct (NewThreadSearchFile_body fs filePath kws regexs (world s))
    as [w [[]|r]]; simpl.
  - intros [= <-]. by rewrite meanwhile_world.
  - destruct (errChan_closed _); [done|]. intros [= <-]. simpl.
    by rewrite meanwhile_world.
Qed.

Lemma NewThreadSearchFile_task_Crashed others main_first fs filePath kws
    regexs (s s' : Shared) r :
  errChan_closed s = false ->
  NewThreadSearchFile_task others main_first fs filePath kws regexs s =
    Crashed s' r ->
  r = sendOnClosed /\ main_first = true /\ wg s = 1 + Z.of_nat others /\
  (exists f, fs filePath = OpenOk f /\ faults regexs f) /\
  world s' = world s.
Proof.
  intros Hopen. unfold NewThreadSearchFile_task.
  destruct (NewThreadSearchFile_body fs filePath kws regexs (world s))
    as [w [[]|r']] eqn:Hbody; simpl; [done|].
  apply body_panics in Hbody as [-> Hfaults].
  destruct (decide (wg s = 1 + Z.of_nat others)) as [Hwg|Hwg].
  - destruct main_first; [|unfold meanwhile; simpl; by rewrite Hopen].
    destruct (errChan_closed (meanwhile _ _ _)); [|done].
    intros [= <- <-]. split_and!; try done.
    apply (meanwhile_world others true (wg_Done (set_world s (world s)))).
  - rewrite meanwhile_open; [done|done|simpl; lia].
Qed.

Lemma NewThreadSearchFile_task_crashes others fs filePath kws regexs
    (s : Shared) f :
  wg s = 1 + Z.of_nat others -> fs filePath = OpenOk f -> faults regexs f ->
  NewThreadSearchFile_task others true fs filePath kws regexs s =
  Crashed {| world := world s; wg := 0; errChan_closed := true |} sendOnClosed.
Proof.
  intros Hwg Hfs Hfaults. unfold NewThreadSearchFile_task.
  rewrite (body_faults _ _ _ _ _ _ Hfs Hfaults). simpl.
  unfold meanwhile, main_closes. simpl.
  replace (wg s - 1 - Z.of_nat others) with 0 by lia. done.
Qed.

Lemma SameThreadSearchFile_task_world others main_first fs kws regexs
    (s s' : Shared) file :
  SameThreadSearchFile_task others main_first fs kws regexs s file =
    Returned s' ->
  world s' = SameThreadSearchFile_file fs kws regexs (world s) file.
Proof.
  unfold SameThreadSearchFile_task, SameThreadSearchFile_file, recovered.
  destruct (SameThreadSearchFile_body fs kws regexs file (world s))
    as [w [[]|r]]; simpl.
  - intros [= <-]. by rewrite meanwhile_world.
  - destruct (errChan_closed _); [done|]. intros [= <-]. simpl.
    by rewrite meanwhile_world.
Qed.

Lemma SameThreadSearchFile_task_Returned others main_first fs kws regexs
    (s : Shared) file :
  errChan_closed s = false -> Z.of_nat others < wg s ->
  exists s',
    SameThreadSearchFile_task others main_first fs kws regexs s file =
      Returned s' /\
    world s' = SameThreadSearchFile_file fs kws regexs (world s) file.
Proof.
  intros Hopen Hwg.
  unfold SameThreadSearchFile_task, SameThreadSearchFile_file, recovered.
  destruct (SameThreadSearchFile_body fs kws regexs file (world s))
    as [w [[]|r]]; simpl.
  - eexists. split; [done|]. by rewrite meanwhile_world.
  - rewrite meanwhile_open; [|done|simpl; lia].
    eexists. split; [done|]. simpl. by rewrite meanwhile_world.
Qed.

End Scan.

(** ** The outcome of one scan *)

Section ScanOutcome.
Context `{L : Lib}.
Implicit Types (fs : FS) (kws : list string) (regexs : list (option Regexp)).
Implicit Types (w : World) (file : FoundFile).

(** C3. A scan sends one [FoundFile] with a non-empty match list and
    nothing else (the file opened, the read loop ran to its end, the
    scanner ended without error and something matched), or one error line
    and nothing else (the open failed, a panic was recovered, or the
    scanner ended in an error), or nothing (the read loop ran to its end,
    the scanner ended without error and nothing matched): never a
    [FoundFile] together with an error line.  This holds of every file a
    worker of [SameThreadSearchFile] scans, and of [NewThreadSearchFile]
    whenever it returns.  [NewThreadSearchFile] does not return in one
    case: its read loop panicked, every other goroutine has called
    [wg.Done()] by the time its [recover] closure runs, and [main] has
    closed [errChan] by then.  The send of the closure panics, the process
    ends, and the scan has sent neither a [FoundFile] nor an error
    line. *)
Theorem scan_emits_one_record_unless_errChan_closed (others : nat)
    (main_first : bool) fs filePath kws regexs (s : Shared) :
  errChan_closed s = false -> Z.of_nat others < wg s ->
  (exists s',
      SameThreadSearchFile_task others main_first fs kws regexs s
        (mkFoundFile filePath []) = Returned s' /\
      Emission fs filePath kws regexs (world s) (world s')) /\
  match NewThreadSearchFile_task others main_first fs filePath kws regexs s
  with
  | Returned s' => Emission fs filePath kws regexs (world s) (world s')
  | Crashed s' r =>
      r = sendOnClosed /\ main_first = true /\ wg s = 1 + Z.of_nat others /\
      (exists f, fs filePath = OpenOk f /\ faults regexs f) /\
      world s' = world s
  end /\
  (main_first = true -> wg s = 1 + Z.of_nat others ->
   (exists f, fs filePath = OpenOk f /\ faults regexs f) ->
   NewThreadSearchFile_task others main_first fs filePath kws regexs s =
   Crashed {| world := world s; wg := 0; errChan_closed := true |}
     sendOnClosed).
Proof.
  intros Hopen Hwg. split; [|split].
  - destruct (SameThreadSearchFile_task_Returned others main_first fs kws
                regexs s (mkFoundFile filePath []) Hopen Hwg)
      as (s' & Htask & Hworld).
    exists s'. split; [done|]. rewrite Hworld.
    apply SameThreadSearchFile_emission.
  - destruct (NewThreadSearchFile_task others main_first fs filePath kws
                regexs s) as [s'|s' r] eqn:Htask.
    + rewrite (NewThreadSearchFile_task_Returned _ _ _ _ _ _ _ _ Htask).
      apply NewThreadSearchFile_emission.
    + by eapply NewThreadSearchFile_task_Crashed.
  - intros -> Hone (f & Hfs & Hfaults).
    by eapply NewThreadSearchFile_task_crashes.
Qed.

Lemma discards_after_loop filePath regexs w (r : Result LoopState) :
  (forall msg, r = Panic msg -> None ∈ regexs) ->
  discards filePath regexs w
    (recovered filePath
       match r with
       | Done _ =>
           (send_err (add_searched w)
              (errLine filePath (Error ErrTooLong)), Done ())
       | Panic msg => (w, Panic msg)
       end).
Proof.
  intros Hpanic. destruct r as [st|msg]; simpl.
  - split; [done|]. eexists. split; [done|]. done.
  - split; [done|]. eexists. split; [done|].
    intros Hnot. destruct Hnot. by eapply Hpanic.
Qed.

(** C1. When the scan of a file stops on a line that does not fit the
    buffer ([scanner.Err()] is [ErrTooLong]), the scan sends one error line
    and no [FoundFile], whatever the lines read before matched; the line
    reports the long token unless a nil pattern made the loop panic, and
    then it reports the panic.  In both modes. *)
Theorem line_too_long_discards_matches fs kws regexs w file f :
  fs (FilePath file) = OpenOk f ->
  Err (NewScanner maxTokenSize f) = Some ErrTooLong ->
  discards (FilePath file) regexs w
    (NewThreadSearchFile fs (FilePath file) kws regexs w) /\
  discards (FilePath file) regexs w
    (SameThreadSearchFile_file fs kws regexs w file).
Proof.
  intros Hfs Herr. unfold_scan. rewrite Hfs, Herr. split.
  - match goal with
    | |- context [scanLoop ?k ?a ?b ?c ?d ?e] =>
        generalize (fun msg => scanLoop_Panic_inv k a b c d e msg);
        destruct (scanLoop k a b c d e) as [[keywords hit]|msg]; intros Hp
    end.
    + apply (discards_after_loop _ _ _ (Done (keywords, hit))). by intros.
    + apply (discards_after_loop _ _ _ (Panic msg)).
      intros ? [= <-]. by apply (Hp msg).
  - match goal with
    | |- context [scanLoop ?k ?a ?b ?c ?d ?e] =>
        generalize (fun msg => scanLoop_Panic_inv k a b c d e msg);
        destruct (scanLoop k a b c d e) as [[keywords hit]|msg]; intros Hp
    end.
    + apply (discards_after_loop _ _ _ (Done (keywords, hit))). by intros.
    + apply (discards_after_loop _ _ _ (Panic msg)).
      intros ? [= <-]. by apply (Hp msg).
Qed.

(** C2. [searchedFiles] is left as it is when the open fails; it is
    incremented by one when the read loop finishes (no pattern is nil, or
    the file has no line), whatever [scanner.Err()] reports afterwards; and
    it is left as it is when the loop panics.  In both modes. *)
Theorem searchedFiles_counts_finished_loops fs kws regexs w file :
  (forall isPathError msg,
     fs (FilePath file) = OpenErr isPathError msg ->
     SearchedFiles (fileCounter
       (NewThreadSearchFile fs (FilePath file) kws regexs w)) =
       SearchedFiles (fileCounter w) /\
     SearchedFiles (fileCounter
       (SameThreadSearchFile_file fs kws regexs w file)) =
       SearchedFiles (fileCounter w)) /\
  (forall f,
     fs (FilePath file) = OpenOk f ->
     None ∉ regexs \/ Lines (NewScanner maxTokenSize f) = [] ->
     SearchedFiles (fileCounter
       (NewThreadSearchFile fs (FilePath file) kws regexs w)) =
       AddUint64 (SearchedFiles (fileCounter w)) 1 /\
     SearchedFiles (fileCounter
       (SameThreadSearchFile_file fs kws regexs w file)) =
       AddUint64 (SearchedFiles (fileCounter w)) 1) /\
  (forall f,
     fs (FilePath file) = OpenOk f ->
     None ∈ regexs -> Lines (NewScanner maxTokenSize f) ≠ [] ->
     SearchedFiles (fileCounter
       (NewThreadSearchFile fs (FilePath file) kws regexs w)) =
       SearchedFiles (fileCounter w) /\
     SearchedFiles (fileCounter
       (SameThreadSearchFile_file fs kws regexs w file)) =
       SearchedFiles (fileCounter w)).
Proof.
  split; [|split].
  - intros b msg Hfs. unfold_scan. rewrite Hfs. by destruct b.
  - intros f Hfs Hfin. unfold_scan. rewrite Hfs.
    destruct (scanLoop_finishes kwLine_NewThread kws regexs
                (Lines (NewScanner maxTokenSize f)) 1 ([], false) Hfin)
      as [[k1 h1] ->].
    destruct (scanLoop_finishes kwLine_SameThread kws regexs
                (Lines (NewScanner maxTokenSize f)) 1 (Keywords file, false) Hfin)
      as [[k2 h2] ->].
    destruct (Err (NewScanner maxTokenSize f)) as [[|m]|], h1, h2; done.
  - intros f Hfs Hin Hne. unfold_scan. rewrite Hfs.
    by rewrite !scanLoop_panics.
Qed.

End ScanOutcome.

(** ** What one line adds to the match list *)

Section OneLine.
Context `{L : Lib}.
Implicit Types (kwLine : string -> Z -> string) (st : LoopState).
Implicit Types (kws : list string) (res : list Regexp) (line : Z).

Lemma bind_keywordLines kwLine lineText line kws :
  kws ≫= keywordLines kwLine lineText line =
  (fun kw => kwLine kw line) <$> keywordHits lineText kws.
Proof.
  induction kws as [|kw kws IH]; [done|].
  rewrite bind_cons, IH. unfold keywordLines, keywordHits.
  rewrite filter_cons. by destruct (Contains lineText kw).
Qed.

Lemma bind_regexLines lineText line res :
  res ≫= regexLines lineText line =
  (fun re => reLine (FindString re lineText) re line) <$> regexHits lineText res.
Proof.
  induction res as [|re res IH]; [done|].
  rewrite bind_cons, IH. unfold regexLines, regexHits.
  rewrite filter_cons.
  destruct (decide (FindString re lineText = "")) as [He|He].
  - by rewrite decide_False by (by intros ?).
  - by rewrite decide_True by done.
Qed.

(** C7. On one line, the two loops append to [file.Keywords] what each
    keyword adds, in the order of [kws], then what each pattern adds, in
    the order of [regexs]; a keyword adds one string when the line contains
    it and none otherwise, however often it occurs; a pattern adds one
    string, built from the one match [FindString] returns, or none. *)
Theorem one_descriptor_per_term_per_line kwLine lineText line kws res st :
  (exists hit,
     reLoop lineText line (Some <$> res) (kwLoop kwLine lineText line kws st) =
     Done (st.1 ++ (kws ≫= keywordLines kwLine lineText line)
                ++ (res ≫= regexLines lineText line), hit)) /\
  (forall kw, (length (keywordLines kwLine lineText line kw) <= 1)%nat) /\
  (forall re, (length (regexLines lineText line re) <= 1)%nat).
Proof.
  split; [|split].
  - destruct (reLoop_compiled lineText line res
                (kwLoop kwLine lineText line kws st)) as [hit ->].
    exists hit. rewrite kwLoop_keywords, bind_keywordLines, bind_regexLines.
    by rewrite <- app_assoc.
  - intros kw. unfold keywordLines. destruct (Contains lineText kw); simpl; lia.
  - intros re. unfold regexLines.
    destruct (decide (FindString re lineText = "")); simpl; lia.
Qed.

(** C10. A pattern whose match on a line is the empty string records
    nothing on that line: alone it leaves the state of the loop as it was,
    and anywhere in [regexs] the loop ends as it does without it. *)
Theorem empty_match_records_nothing lineText line re
    (rs1 rs2 : list (option Regexp)) st :
  FindString re lineText = "" ->
  reLoop lineText line [Some re] st = Done st /\
  reLoop lineText line (rs1 ++ Some re :: rs2) st =
  reLoop lineText line (rs1 ++ rs2) st.
Proof.
  intros Hempty. split.
  - simpl. by rewrite decide_True.
  - revert st. induction rs1 as [|[r|] rs1 IH]; intros st; simpl.
    + by rewrite decide_True.
    + apply IH.
    + done.
Qed.

End OneLine.

(** ** The match list of a file *)

Section FileOrder.
Context `{L : Lib}.
Implicit Types (kwLine : string -> Z -> string) (st : LoopState).
Implicit Types (kws : list string) (res : list Regexp).
Implicit Types (lines : list string) (line n : Z) (ds : list Descriptor).

Lemma int_incr_small line : 0 <= line < maxInt -> int_incr line = line + 1.
Proof.
  unfold int_incr, wrap_int, maxInt, intSize. intros Hline.
  rewrite Z.mod_small; lia.
Qed.

Lemma scanTokens_length max data rtok k :
  (length (scanTokens max data rtok k).1
   <= String.length data + (if (k =? 0)%N then 0 else 1))%nat.
Proof.
  revert rtok k. induction data as [|c data IH]; intros rtok k; simpl.
  - destruct (k =? 0)%N; [simpl; lia|]. destruct (max <=? k)%N; simpl; lia.
  - destruct (Ascii.eqb c newline).
    + destruct (max <=? k)%N; [simpl; lia|].
      specialize (IH "" 0%N).
      destruct (scanTokens max data "" 0) as [l e]. simpl in *.
      destruct (k =? 0)%N; lia.
    + specialize (IH (String c rtok) (k + 1)%N).
      destruct (k + 1 =? 0)%N eqn:Hk; [apply N.eqb_eq in Hk; lia|].
      destruct (k =? 0)%N; lia.
Qed.

Lemma Lines_length max f :
  (length (Lines (NewScanner max f)) <= String.length (content f))%nat.
Proof.
  pose proof (scanTokens_length max (content f) "" 0) as Hlen.
  unfold NewScanner. destruct (scanTokens max (content f) "" 0) as [l e].
  simpl in *. lia.
Qed.

Lemma render_lineDescriptors kwLine kws res lineText line :
  render kwLine <$> lineDescriptors kws res lineText line =
  ((fun kw => kwLine kw line) <$> keywordHits lineText kws) ++
  ((fun re => reLine (FindString re lineText) re line)
     <$> regexHits lineText res).
Proof.
  unfold lineDescriptors. by rewrite fmap_app, <- !list_fmap_compose.
Qed.

(** The loop over the lines builds the rendering of [fileDescriptors], as
    long as the line counter does not wrap around. *)
Lemma scanLoop_fileDescriptors kwLine kws res lines line st :
  0 <= line -> line + Z.of_nat (length lines) <= maxInt + 1 ->
  exists hit,
    scanLoop kwLine kws (Some <$> res) lines line st =
    Done (st.1 ++ (render kwLine <$> fileDescriptors kws res lines line), hit).
Proof.
  revert line st. induction lines as [|lineText lines IH]; intros line st H0 Hmax.
  - exists (st.2). simpl. rewrite app_nil_r. by destruct st.
  - cbn [scanLoop fileDescriptors].
    destruct (reLoop_compiled lineText line res
                (kwLoop kwLine lineText line kws st)) as [hit1 ->].
    rewrite kwLoop_keywords. cbn [mbind Result_bind].
    rewrite fmap_app, render_lineDescriptors.
    destruct lines as [|lineText' lines'].
    + exists hit1. simpl. by rewrite !app_nil_r, <- app_assoc.
    + rewrite int_incr_small by (simpl length in Hmax; lia).
      destruct (IH (line + 1)
                  (((st.1 ++ ((fun kw => kwLine kw line) <$> keywordHits lineText kws))
                    ++ ((fun re => reLine (FindString re lineText) re line)
                          <$> regexHits lineText res)), hit1))
        as [hit ->]; [lia|simpl length in *; lia|].
      exists hit. simpl. by rewrite <- !app_assoc.
Qed.

Lemma lineDescriptors_line kws res lineText line :
  Forall (fun d => lineNumber d = line) (lineDescriptors kws res lineText line).
Proof.
  unfold lineDescriptors. apply Forall_app. split; by apply Forall_fmap, Forall_true.
Qed.

Lemma fileDescriptors_from kws res lines line :
  Forall (fun d => line <= lineNumber d) (fileDescriptors kws res lines line).
Proof.
  revert line. induction lines as [|lineText lines IH]; intros line; simpl.
  - constructor.
  - apply Forall_app. split.
    + eapply Forall_impl; [apply lineDescriptors_line|]. simpl. lia.
    + eapply Forall_impl; [apply (IH (line + 1))|]. simpl. lia.
Qed.

Lemma lineDescriptors_sorted kws res lineText line :
  StronglySorted before (lineDescriptors kws res lineText line).
Proof.
  unfold lineDescriptors. apply StronglySorted_app_2.
  - intros d1 d2 (kw & -> & _)%list_elem_of_fmap (re & -> & _)%list_elem_of_fmap.
    right. simpl. auto.
  - induction (keywordHits lineText kws) as [|kw hits IH]; csimpl; constructor;
      [done|]. apply Forall_fmap, Forall_true. intros kw'. right. simpl. auto.
  - induction (regexHits lineText res) as [|re hits IH]; csimpl; constructor;
      [done|]. apply Forall_fmap, Forall_true. intros re'. right. simpl. auto.
Qed.

Lemma fileDescriptors_sorted kws res lines line :
  StronglySorted before (fileDescriptors kws res lines line).
Proof.
  revert line. induction lines as [|lineText lines IH]; intros line; simpl.
  - constructor.
  - apply StronglySorted_app_2; [|apply lineDescriptors_sorted|apply IH].
    intros d1 d2 Hd1 Hd2. left.
    pose proof (lineDescriptors_line kws res lineText line) as H1.
    pose proof (fileDescriptors_from kws res lines (line + 1)) as H2.
    rewrite Forall_forall in H1, H2.
    specialize (H1 d1 Hd1). specialize (H2 d2 Hd2). simpl in *. lia.
Qed.

Lemma on_line_later o n ds :
  Forall (fun d => n < lineNumber d) ds -> on_line o n ds = [].
Proof.
  induction 1 as [|d ds Hd _ IH]; [done|].
  unfold on_line in *. rewrite filter_cons, IH.
  rewrite decide_False; [done|]. intros [? _]. lia.
Qed.

Lemma on_line_lineDescriptors_keyword kws res lineText line n :
  term <$> on_line FromKeyword n (lineDescriptors kws res lineText line) =
  if decide (line = n) then keywordHits lineText kws else [].
Proof.
  unfold lineDescriptors, on_line. rewrite filter_app, fmap_app.
  replace (filter (fun d => lineNumber d = n /\ origin d = FromKeyword)
             (regexDescriptor lineText line <$> regexHits lineText res))
    with (@nil Descriptor).
  2:{ induction (regexHits lineText res) as [|re hits IH]; [done|]. csimpl.
      rewrite filter_cons, decide_False; [done|]. by intros [_ ?]. }
  rewrite app_nil_r.
  induction (keywordHits lineText kws) as [|kw hits IH]; csimpl.
  - by destruct (decide (line = n)).
  - rewrite filter_cons. simpl. destruct (decide (line = n)) as [->|Hne].
    + rewrite decide_True by done. csimpl. by rewrite IH.
    + rewrite decide_False; [done|]. by intros [? _].
Qed.

Lemma on_line_lineDescriptors_regex kws res lineText line n :
  source <$> on_line FromRegex n (lineDescriptors kws res lineText line) =
  if decide (line = n) then Regexp_String <$> regexHits lineText res else [].
Proof.
  unfold lineDescriptors, on_line. rewrite filter_app, fmap_app.
  replace (filter (fun d => lineNumber d = n /\ origin d = FromRegex)
             (keywordDescriptor line <$> keywordHits lineText kws))
    with (@nil Descriptor).
  2:{ induction (keywordHits lineText kws) as [|kw hits IH]; [done|]. csimpl.
      rewrite filter_cons, decide_False; [done|]. by intros [_ ?]. }
  rewrite app_nil_l.
  induction (regexHits lineText res) as [|re hits IH]; csimpl.
  - by destruct (decide (line = n)).
  - rewrite filter_cons. simpl. destruct (decide (line = n)) as [->|Hne].
    + rewrite decide_True by done. csimpl. by rewrite IH.
    + rewrite decide_False; [done|]. by intros [? _].
Qed.

Lemma fileDescriptors_ordered kws res lines line :
  ordered kws res (fileDescriptors kws res lines line).
Proof.
  split; [apply fileDescriptors_sorted|]. intros n.
  revert line. induction lines as [|lineText lines IH]; intros line; simpl.
  - split; apply sublist_nil_l.
  - unfold on_line in *. rewrite !filter_app, !fmap_app.
    pose proof (on_line_lineDescriptors_keyword kws res lineText line n) as Hk.
    pose proof (on_line_lineDescriptors_regex kws res lineText line n) as Hr.
    unfold on_line in Hk, Hr. rewrite Hk, Hr.
    destruct (decide (line = n)) as [->|Hne].
    + pose proof (fileDescriptors_from kws res lines (n + 1)) as Hfrom.
      assert (Forall (fun d => n < lineNumber d)
                (fileDescriptors kws res lines (n + 1))) as Hlater
        by (eapply Forall_impl; [exact Hfrom|]; simpl; lia).
      pose proof (on_line_later FromKeyword n _ Hlater) as Hk0.
      pose proof (on_line_later FromRegex n _ Hlater) as Hr0.
      unfold on_line in Hk0, Hr0. rewrite Hk0, Hr0. csimpl.
      rewrite !app_nil_r. split.
      * apply sublist_filter.
      * apply fmap_sublist, sublist_filter.
    + apply IH.
Qed.

End FileOrder.

(** ** The match list a scan sends *)

Section SentFile.
Context `{L : Lib}.
Implicit Types (fs : FS) (kws : list string) (regexs : list (option Regexp)).
Implicit Types (w : World) (file : FoundFile).

Lemma not_sent {A} (l : list A) (x : A) : l = l ++ [x] -> False.
Proof.
  intros Heq. apply (f_equal length) in Heq.
  rewrite length_app in Heq. simpl in Heq. lia.
Qed.

Lemma NewThreadSearchFile_sent fs filePath kws regexs w file :
  outputChan (NewThreadSearchFile fs filePath kws regexs w) =
    outputChan w ++ [file] ->
  exists f,
    fs filePath = OpenOk f /\
    scanLoop kwLine_NewThread kws regexs (Lines (NewScanner maxTokenSize f)) 1
      ([], false) = Done (Keywords file, true).
Proof.
  unfold_scan. destruct (fs filePath) as [f|[] msg]; simpl;
    [|by intros ?%not_sent..].
  destruct (scanLoop _ _ _ _ _ _) as [[keywords hit]|r] eqn:Hloop; simpl;
    [|by intros ?%not_sent].
  destruct (Err _) as [[|m]|]; simpl; [by intros ?%not_sent..|].
  destruct hit; simpl; [|by intros ?%not_sent].
  intros [= <-]%app_inv_head. by exists f.
Qed.

Lemma SameThreadSearchFile_sent fs filePath kws regexs w file :
  outputChan (SameThreadSearchFile_file fs kws regexs w
                (mkFoundFile filePath [])) = outputChan w ++ [file] ->
  exists f,
    fs filePath = OpenOk f /\
    scanLoop kwLine_SameThread kws regexs (Lines (NewScanner maxTokenSize f)) 1
      ([], false) = Done (Keywords file, true).
Proof.
  unfold_scan. destruct (fs filePath) as [f|[] msg]; simpl;
    [|by intros ?%not_sent..].
  destruct (scanLoop _ _ _ _ _ _) as [[keywords hit]|r] eqn:Hloop; simpl;
    [|by intros ?%not_sent].
  destruct (Err _) as [[|m]|]; simpl; [by intros ?%not_sent..|].
  destruct hit; simpl; [|by intros ?%not_sent].
  intros [= <-]%app_inv_head. by exists f.
Qed.

Lemma scanLoop_hit_descriptors kwLine kws regexs lines keywords :
  Z.of_nat (length lines) <= maxInt ->
  scanLoop kwLine kws regexs lines 1 ([], false) = Done (keywords, true) ->
  keywords = render kwLine <$> fileDescriptors kws (compiled regexs) lines 1.
Proof.
  intros Hlen Hloop.
  destruct (scanLoop_Done_inv _ _ _ _ _ _ _ Hloop) as [Hnot | ->];
    [|by simpl in Hloop].
  rewrite (regexs_compiled regexs Hnot) in Hloop.
  destruct (scanLoop_fileDescriptors kwLine kws (compiled regexs) lines 1
              ([], false)) as [hit Hd]; [lia..|].
  rewrite Hd in Hloop. by injection Hloop as <- _.
Qed.

(** C8. For a file of fewer than [2^63] bytes (the line counter is an
    [int]), the match list of the [FoundFile] a scan sends is the rendering
    of [fileDescriptors]: the descriptors of line 1, then those of line 2,
    and so on, and on each line those of the keywords the line contains, in
    the order of [kws], then those of the patterns that match it, in the
    order of [regexs].  That list is [ordered]: line numbers never
    decrease, no pattern match precedes a keyword match of the same line,
    and on every line the keywords and the patterns come in list order.
    In both modes. *)
Theorem matches_in_line_then_list_order fs filePath kws regexs w f :
  fs filePath = OpenOk f ->
  Z.of_nat (String.length (content f)) <= maxInt ->
  (forall file,
     outputChan (NewThreadSearchFile fs filePath kws regexs w) =
       outputChan w ++ [file] ->
     Keywords file =
       render kwLine_NewThread <$>
         fileDescriptors kws (compiled regexs)
           (Lines (NewScanner maxTokenSize f)) 1) /\
  (forall file,
     outputChan (SameThreadSearchFile_file fs kws regexs w
                   (mkFoundFile filePath [])) = outputChan w ++ [file] ->
     Keywords file =
       render kwLine_SameThread <$>
         fileDescriptors kws (compiled regexs)
           (Lines (NewScanner maxTokenSize f)) 1) /\
  ordered kws (compiled regexs)
    (fileDescriptors kws (compiled regexs)
       (Lines (NewScanner maxTokenSize f)) 1).
Proof.
  intros Hfs Hsize.
  pose proof (Lines_length maxTokenSize f) as Hlen.
  split; [|split].
  - intros file (f' & Hfs' & Hloop)%NewThreadSearchFile_sent.
    assert (f' = f) as -> by congruence.
    apply scanLoop_hit_descriptors; [lia|done].
  - intros file (f' & Hfs' & Hloop)%SameThreadSearchFile_sent.
    assert (f' = f) as -> by congruence.
    apply scanLoop_hit_descriptors; [lia|done].
  - apply fileDescriptors_ordered.
Qed.

End SentFile.

(** ** The counters over a run *)

Section Counters.
Context `{L : Lib}.
Implicit Types (fs : FS) (kws : list string) (regexs : list (option Regexp)).
Implicit Types (w : World) (file : FoundFile) (walk : list WalkEntry).

Lemma foldl_invariant {A B} (P : A -> Prop) (f : A -> B -> A) (l : list B) a :
  P a -> (forall a b, P a -> P (f a b)) -> P (foldl f a l).
Proof.
  intros Ha Hf. revert a Ha. induction l as [|b l IH]; intros a Ha; simpl; auto.
Qed.

Ltac scan_all_cases := unfold_scan; repeat case_match; by simplify_eq/=.

Lemma NewThreadSearchFile_NumIgnored fs filePath kws regexs w :
  NumIgnored (fileCounter (NewThreadSearchFile fs filePath kws regexs w)) =
  NumIgnored (fileCounter w).
Proof. scan_all_cases. Qed.

Lemma SameThreadSearchFile_file_NumIgnored fs kws regexs w file :
  NumIgnored (fileCounter (SameThreadSearchFile_file fs kws regexs w file)) =
  NumIgnored (fileCounter w).
Proof. scan_all_cases. Qed.

Lemma NewThreadFileFinder_NumIgnored fs walk kws regexs ignored_types w :
  NumIgnored (fileCounter
    (NewThreadFileFinder fs walk kws regexs ignored_types w)) =
  NumIgnored (fileCounter w).
Proof.
  unfold NewThreadFileFinder.
  apply (foldl_invariant
           (fun w' => NumIgnored (fileCounter w') = NumIgnored (fileCounter w)));
    [done|].
  intros w' e Hw'. unfold NewThread_walkFunc.
  destruct (err e); [done|]. destruct (IsDir e); [done|].
  destruct (ignoreLoop (path e) ignored_types); [done|].
  by rewrite NewThreadSearchFile_NumIgnored.
Qed.

Lemma SameThreadFileFinder_NumIgnored walk ignored_types w :
  NumIgnored (fileCounter (SameThreadFileFinder walk ignored_types w).1) =
  NumIgnored (fileCounter w).
Proof.
  unfold SameThreadFileFinder.
  apply (foldl_invariant
           (fun s : World * list FoundFile =>
              NumIgnored (fileCounter s.1) = NumIgnored (fileCounter w)));
    [done|].
  intros [w' fileChan] e Hw'. unfold SameThread_walkFunc.
  destruct (err e); [done|]. destruct (IsDir e); [done|].
  by destruct (ignoreLoop (path e) ignored_types).
Qed.

Lemma SameThreadSearchFile_NumIgnored fs kws regexs fileChan w :
  NumIgnored (fileCounter (SameThreadSearchFile fs kws regexs fileChan w)) =
  NumIgnored (fileCounter w).
Proof.
  unfold SameThreadSearchFile.
  apply (foldl_invariant
           (fun w' => NumIgnored (fileCounter w') = NumIgnored (fileCounter w)));
    [done|].
  intros w' file Hw'. by rewrite SameThreadSearchFile_file_NumIgnored.
Qed.

Lemma run_NumIgnored newThread fs walk kws regexs ignored_strings :
  NumIgnored (counters (run newThread fs walk kws regexs ignored_strings)) = 0.
Proof.
  unfold run. destruct newThread.
  - destruct (ErrorCollector _ _) as [errs n]. simpl.
    by rewrite NewThreadFileFinder_NumIgnored.
  - pose proof (SameThreadFileFinder_NumIgnored walk ignored_strings
                  (mkWorld [] [] (mkNumFiles 0 0 0 0))) as Hfind.
    destruct (SameThreadFileFinder _ _ _) as [w1 fileChan].
    destruct (ErrorCollector _ _) as [errs n]. simpl in *.
    by rewrite SameThreadSearchFile_NumIgnored.
Qed.

(** A nil pattern turns the scan of every file that has a line into the
    error line of the recovered panic. *)
Lemma nil_regex_fails_scan fs filePath kws regexs w f :
  None ∈ regexs -> fs filePath = OpenOk f ->
  Lines (NewScanner maxTokenSize f) ≠ [] ->
  NewThreadSearchFile fs filePath kws regexs w =
    send_err w (errLine filePath nilDeref) /\
  SameThreadSearchFile_file fs kws regexs w (mkFoundFile filePath []) =
    send_err w (errLine filePath nilDeref).
Proof.
  intros Hin Hfs Hne. unfold_scan. rewrite Hfs.
  by rewrite !scanLoop_panics.
Qed.

Lemma loadRegexs_keeps lines regexs printed (r : option Regexp) :
  r ∈ regexs -> r ∈ (loadRegexs lines regexs printed).1.
Proof.
  revert regexs printed.
  induction lines as [|text lines IH]; intros regexs printed Hin; simpl; [done|].
  destruct (decide (TrimSpace text = "")); [by apply IH|].
  destruct (regexp_Compile (TrimSpace text)); apply IH, elem_of_app; by left.
Qed.

(** C5. The loop of [main] over the regex file appends the result of
    [regexp.Compile] to [regexs] also when the compilation failed: for a
    line that fails to compile, the slice handed to the scanners holds a
    nil pointer. *)
Theorem failed_regex_is_kept_as_nil lines text e regexs printed :
  text ∈ lines ->
  TrimSpace text ≠ "" ->
  regexp_Compile (TrimSpace text) = inr e ->
  None ∈ (loadRegexs lines regexs printed).1.
Proof.
  intros Hin Hne He. revert regexs printed.
  induction Hin as [text lines|text text' lines Hin IH]; intros regexs printed;
    simpl.
  - rewrite decide_False by done. rewrite He.
    apply loadRegexs_keeps, elem_of_app. right. by left.
  - destruct (decide (TrimSpace text' = "")); [by apply IH|].
    destruct (regexp_Compile (TrimSpace text')); by apply IH.
Qed.

End Counters.

(** ** Whole runs, the regex file and the progress closure *)

(** C4. No run changes [NumIgnored]: it is zero at the end whatever the
    ignore filter skipped.  With the ignore list [system32], the file
    [/srv/System32/foo.txt], which holds a keyword, is skipped by the
    filter in both modes (no output, no error, [FoundFiles = 0]) and
    [NumIgnored] is 0. *)
Theorem numIgnored_is_never_incremented :
  (forall (L : Lib) newThread fs walk keywords regexs ignored_strings,
     NumIgnored (counters
       (@run L newThread fs walk keywords regexs ignored_strings)) = 0) /\
  (forall newThread,
     @ignoreLoop Fragment.lib "/srv/System32/foo.txt" ["system32"] = true /\
     @run Fragment.lib newThread Examples.fs Examples.walk_System32
       ["ERROR"] [] ["system32"] =
     {| output_file := []; error_file := [];
        counters := mkNumFiles 0 0 0 0 |}).
Proof.
  split.
  - intros. apply run_NumIgnored.
  - by intros []; vm_compute.
Qed.

(** C6. In the mode [newthread=true] the descriptor of a keyword match has
    two colons between the keyword and the line number; in the other mode
    it has one.  The output line for [a.txt], whose line 2 contains the
    keyword [ERROR]: *)
Theorem NewThread_keyword_descriptor_has_two_colons :
  output_file (@run Fragment.lib true Examples.fs Examples.walk_a
                 ["ERROR"] [] []) =
    ["Path: a.txt | Keywords: ERROR::2" +:+ nl] /\
  output_file (@run Fragment.lib false Examples.fs Examples.walk_a
                 ["ERROR"] [] []) =
    ["Path: a.txt | Keywords: ERROR:2" +:+ nl].
Proof. by vm_compute. Qed.

Lemma steps_Rendering closed n p :
  Monitor.steps closed n (Monitor.mkState Monitor.Rendering p) =
  Monitor.mkState Monitor.Rendering (n + p).
Proof.
  revert p. induction n as [|n IH]; intros p; simpl; [done|].
  unfold Monitor.step. simpl. rewrite IH. f_equal. lia.
Qed.

(** C9. After [main] has sent [false] on [doneChan], the closure is in its
    inner loop, which has no exit: whatever number [k] of turns it takes
    before [close(doneChan)] and [n] after it, it has not returned, and
    it has printed a status line at every turn. *)
Theorem doneFunc_never_returns k n :
  Monitor.after_close k n =
  Some (Monitor.mkState Monitor.Rendering (k + n)).
Proof.
  unfold Monitor.after_close. simpl.
  rewrite !steps_Rendering. do 2 f_equal. lia.
Qed.

(** ** The theorems at the example inputs *)

(** The scan of [big.txt] reads the line [ERROR here], which contains the
    keyword, then stops on the full buffer; the match is not sent. *)
Lemma line_too_long_discards_matches_witness :
  Lines (NewScanner maxTokenSize Examples.big_txt) = ["ERROR here"] /\
  @discards Fragment.lib "big.txt" [] Examples.w0
    (@NewThreadSearchFile Fragment.lib Examples.fs "big.txt" ["ERROR"] []
       Examples.w0) /\
  @discards Fragment.lib "big.txt" [] Examples.w0
    (@SameThreadSearchFile_file Fragment.lib Examples.fs ["ERROR"] []
       Examples.w0 (mkFoundFile "big.txt" [])).
Proof.
  split; [by vm_compute|].
  apply (@line_too_long_discards_matches Fragment.lib Examples.fs ["ERROR"] []
           Examples.w0 (mkFoundFile "big.txt" []) Examples.big_txt).
  - reflexivity.
  - by vm_compute.
Defined.

(** [missing.txt] cannot be opened; the loop over [big.txt] finishes and
    the scan then reports the long line; a nil pattern makes the loop over
    [a.txt] panic. *)
Lemma searchedFiles_counts_finished_loops_witness :
  (SearchedFiles (fileCounter
     (@NewThreadSearchFile Fragment.lib Examples.fs "missing.txt" ["ERROR"] []
        Examples.w0)) = 0 /\
   SearchedFiles (fileCounter
     (@SameThreadSearchFile_file Fragment.lib Examples.fs ["ERROR"] []
        Examples.w0 (mkFoundFile "missing.txt" []))) = 0) /\
  (SearchedFiles (fileCounter
     (@NewThreadSearchFile Fragment.lib Examples.fs "big.txt" ["ERROR"] []
        Examples.w0)) = AddUint64 0 1 /\
   SearchedFiles (fileCounter
     (@SameThreadSearchFile_file Fragment.lib Examples.fs ["ERROR"] []
        Examples.w0 (mkFoundFile "big.txt" []))) = AddUint64 0 1) /\
  (SearchedFiles (fileCounter
     (@NewThreadSearchFile Fragment.lib Examples.fs "a.txt" ["ERROR"] [None]
        Examples.w0)) = 0 /\
   SearchedFiles (fileCounter
     (@SameThreadSearchFile_file Fragment.lib Examples.fs ["ERROR"] [None]
        Examples.w0 (mkFoundFile "a.txt" []))) = 0).
Proof.
  split; [|split].
  - apply (proj1 (@searchedFiles_counts_finished_loops Fragment.lib
                    Examples.fs ["ERROR"] [] Examples.w0
                    (mkFoundFile "missing.txt" []))
             true "open missing.txt: permission denied").
    reflexivity.
  - apply (proj1 (proj2 (@searchedFiles_counts_finished_loops Fragment.lib
                    Examples.fs ["ERROR"] [] Examples.w0
                    (mkFoundFile "big.txt" [])))
             Examples.big_txt).
    + reflexivity.
    + left. apply not_elem_of_nil.
  - apply (proj2 (proj2 (@searchedFiles_counts_finished_loops Fragment.lib
                    Examples.fs ["ERROR"] [None] Examples.w0
                    (mkFoundFile "a.txt" [])))
             Examples.a_txt).
    + reflexivity.
    + apply list_elem_of_here.
    + by vm_compute.
Defined.

(** The regex file with the lines [abc] and [(]: the second does not
    compile. *)
Lemma failed_regex_is_kept_as_nil_witness :
  None ∈ (@loadRegexs Fragment.lib ["abc"; "("] [] []).1.
Proof.
  apply (@failed_regex_is_kept_as_nil Fragment.lib ["abc"; "("] "("
           "error parsing regexp: `(`" [] []).
  - apply list_elem_of_further, list_elem_of_here.
  - by vm_compute.
  - reflexivity.
Defined.

(** [a.txt] with the keyword [ERROR] and the patterns [a*] and [40]: the
    match lists the two scanners send. *)
Lemma matches_in_line_then_list_order_witness :
  ["ERROR::2"; "aa:a*:3"; "40:40:3"] =
    render kwLine_NewThread <$>
      @fileDescriptors Fragment.lib ["ERROR"]
        (@compiled Fragment.lib Examples.patterns)
        (Lines (NewScanner maxTokenSize Examples.a_txt)) 1 /\
  ["ERROR:2"; "aa:a*:3"; "40:40:3"] =
    render kwLine_SameThread <$>
      @fileDescriptors Fragment.lib ["ERROR"]
        (@compiled Fragment.lib Examples.patterns)
        (Lines (NewScanner maxTokenSize Examples.a_txt)) 1 /\
  @ordered Fragment.lib ["ERROR"] (@compiled Fragment.lib Examples.patterns)
    (@fileDescriptors Fragment.lib ["ERROR"]
       (@compiled Fragment.lib Examples.patterns)
       (Lines (NewScanner maxTokenSize Examples.a_txt)) 1).
Proof.
  assert (Z.of_nat (String.length (content Examples.a_txt)) <= maxInt)
    as Hsize by (by vm_compute).
  destruct (@matches_in_line_then_list_order Fragment.lib Examples.fs "a.txt"
              ["ERROR"] Examples.patterns Examples.w0 Examples.a_txt
              eq_refl Hsize) as (Hnew & Hsame & Hordered).
  split; [|split].
  - apply (Hnew (mkFoundFile "a.txt" ["ERROR::2"; "aa:a*:3"; "40:40:3"])).
    by vm_compute.
  - apply (Hsame (mkFoundFile "a.txt" ["ERROR:2"; "aa:a*:3"; "40:40:3"])).
    by vm_compute.
  - exact Hordered.
Defined.

(** The pattern [a*] on the line [bbb]: its leftmost match is empty. *)
Lemma empty_match_records_nothing_witness :
  @reLoop Fragment.lib "bbb" 1 [Some (Fragment.Star "a")] ([], false) =
    Done ([], false) /\
  @reLoop Fragment.lib "bbb" 1
    ([Some (Fragment.Lit "b")] ++ Some (Fragment.Star "a") :: []) ([], false) =
  @reLoop Fragment.lib "bbb" 1 ([Some (Fragment.Lit "b")] ++ []) ([], false).
Proof.
  apply (@empty_match_records_nothing Fragment.lib "bbb" 1 (Fragment.Star "a")
           [Some (Fragment.Lit "b")] [] ([], false)).
  reflexivity.
Defined.

(** With a nil pattern the scan of [a.txt] panics on its first line.  The
    worker of [SameThreadSearchFile] sends the line of the panic whether
    or not [main] is given a turn; so does [NewThreadSearchFile] when
    [main] is not given one; when [main] is, it has closed [errChan] and
    the send ends the process. *)
Lemma scan_emits_one_record_unless_errChan_closed_witness :
  (exists s',
      @SameThreadSearchFile_task Fragment.lib 0 true Examples.fs ["ERROR"]
        Examples.nil_pattern Examples.last_scan (mkFoundFile "a.txt" []) =
      Returned s' /\
      @Emission Fragment.lib Examples.fs "a.txt" ["ERROR"] Examples.nil_pattern
        (world Examples.last_scan) (world s')) /\
  match @NewThreadSearchFile_task Fragment.lib 0 true Examples.fs "a.txt"
          ["ERROR"] Examples.nil_pattern Examples.last_scan with
  | Returned s' =>
      @Emission Fragment.lib Examples.fs "a.txt" ["ERROR"] Examples.nil_pattern
        (world Examples.last_scan) (world s')
  | Crashed s' r =>
      r = sendOnClosed /\ true = true /\
      wg Examples.last_scan = 1 + Z.of_nat 0 /\
      (exists f, Examples.fs "a.txt" = OpenOk f /\
                 @faults Fragment.lib Examples.nil_pattern f) /\
      world s' = world Examples.last_scan
  end /\
  (true = true -> wg Examples.last_scan = 1 + Z.of_nat 0 ->
   (exists f, Examples.fs "a.txt" = OpenOk f /\
              @faults Fragment.lib Examples.nil_pattern f) ->
   @NewThreadSearchFile_task Fragment.lib 0 true Examples.fs "a.txt" ["ERROR"]
     Examples.nil_pattern Examples.last_scan =
   Crashed {| world := world Examples.last_scan; wg := 0;
              errChan_closed := true |} sendOnClosed).
Proof.
  apply (@scan_emits_one_record_unless_errChan_closed Fragment.lib 0 true
           Examples.fs "a.txt" ["ERROR"] Examples.nil_pattern
           Examples.last_scan).
  - reflexivity.
  - reflexivity.
Defined.

Example late_recover_meets_closed_errChan :
  @NewThreadSearchFile_task Fragment.lib 0 true Examples.fs "a.txt" ["ERROR"]
    Examples.nil_pattern Examples.last_scan =
    Crashed (mkShared Examples.w0 0 true) "send on closed channel" /\
  @NewThreadSearchFile_task Fragment.lib 0 false Examples.fs "a.txt" ["ERROR"]
    Examples.nil_pattern Examples.last_scan =
    Returned (mkShared
                (send_err Examples.w0
                   "a.txt = runtime error: invalid memory address or nil pointer dereference")
                0 false) /\
  @SameThreadSearchFile_task Fragment.lib 0 true Examples.fs ["ERROR"]
    Examples.nil_pattern Examples.last_scan (mkFoundFile "a.txt" []) =
    Returned (mkShared
                (send_err Examples.w0
                   "a.txt = runtime error: invalid memory address or nil pointer dereference")
                1 false).
Proof. by vm_compute. Qed.

(** Two scans are still counted and the other one calls [wg.Done()]
    between the [wg.Done()] and the [recover] closure of this one: the
    send meets the closed [errChan] as well. *)
Example late_recover_after_another_scan :
  @NewThreadSearchFile_task Fragment.lib 1 true Examples.fs "a.txt" ["ERROR"]
    Examples.nil_pattern (mkShared Examples.w0 2 false) =
    Crashed (mkShared Examples.w0 0 true) "send on closed channel" /\
  @NewThreadSearchFile_task Fragment.lib 0 true Examples.fs "a.txt" ["ERROR"]
    Examples.nil_pattern (mkShared Examples.w0 2 false) =
    Returned (mkShared
                (send_err Examples.w0
                   "a.txt = runtime error: invalid memory address or nil pointer dereference")
                1 false).
Proof. by vm_compute. Qed.

(** Without the nil pattern the scan of [a.txt] returns in every case,
    with its one [FoundFile] sent. *)
Example scan_of_a_txt_returns :
  @NewThreadSearchFile_task Fragment.lib 0 true Examples.fs "a.txt" ["ERROR"]
    Examples.patterns Examples.last_scan =
    Returned (mkShared
                (send_file (add_searched Examples.w0)
                   (mkFoundFile "a.txt"
                      ["ERROR::2"; "aa:a*:3"; "40:40:3"]))
                0 true).
Proof. by vm_compute. Qed.

(** ** Runs at the example inputs *)

(** The pooled mode on [a.txt]: one descriptor for the keyword that occurs
    twice on line 2, one for the first match of each pattern on line 3. *)
Example run_a_txt :
  @run Fragment.lib false Examples.fs Examples.walk_a ["ERROR"]
    Examples.patterns [] =
  {| output_file :=
       ["Path: a.txt | Keywords: ERROR:2 & aa:a*:3 & 40:40:3" +:+ nl];
     error_file := [];
     counters := mkNumFiles 1 1 0 0 |}.
Proof. by vm_compute. Qed.

(** A file that cannot be opened: one error line, not searched. *)
Example run_unreadable :
  @run Fragment.lib false Examples.fs [mkWalkEntry "secret.txt" false None]
    ["ERROR"] [] [] =
  {| output_file := [];
     error_file := ["secret.txt = open secret.txt: permission denied" +:+ nl];
     counters := mkNumFiles 1 0 1 0 |}.
Proof. by vm_compute. Qed.

(** With the regex file [abc], [(] the slice holds a nil pointer, and the
    scan of [a.txt] ends in the recovered panic, in both modes. *)
Example run_with_failed_regex :
  forall newThread,
    @run Fragment.lib newThread Examples.fs Examples.walk_a ["ERROR"]
      (@loadRegexs Fragment.lib ["abc"; "("] [] []).1 [] =
    {| output_file := [];
       error_file := ["a.txt = " +:+ nilDeref +:+ nl];
       counters := mkNumFiles 1 0 1 0 |}.
Proof. by intros []; vm_compute. Qed.

(** A file without a line is searched even then: the loop body never
    runs. *)
Example run_empty_file_with_failed_regex :
  @run Fragment.lib true Examples.fs [mkWalkEntry "empty.txt" false None]
    ["ERROR"] [None] [] =
  {| output_file := []; error_file := []; counters := mkNumFiles 1 1 0 0 |}.
Proof. by vm_compute. Qed.

(** The closure does return when it is at its [range] and the channel is
    closed, or when it receives [true]; [main] never sends [true]. *)
Example doneFunc_returns_at_range :
  Monitor.control (Monitor.step true (Monitor.mkState Monitor.AtRange 0)) =
    Monitor.Returned /\
  Monitor.control <$> Monitor.send true (Monitor.mkState Monitor.AtRange 0) =
    Some Monitor.Returned.
Proof. done. Qed.

(** ** One scan, summed up *)

Section ScanSummary.
Context `{L : Lib}.
Implicit Types (fs : FS) (kws : list string) (regexs : list (option Regexp)).
Implicit Types (w : World) (file : FoundFile) (st : LoopState).
Implicit Types (kwLine : string -> Z -> string) (lines : list string).

Lemma has_nil_elem_of regexs : has_nil regexs = true <-> None ∈ regexs.
Proof.
  unfold has_nil. induction regexs as [|[re|] regexs IH]; simpl.
  - split; [done|by intros ?%elem_of_nil].
  - rewrite IH. split; [by right|]. by intros [|]%elem_of_cons.
  - split; [by left|done].
Qed.

Lemma scanLoop_cases kwLine kws regexs (scanner : Scanner) line st :
  (negb (has_nil regexs) || no_line scanner = true /\
   exists st', scanLoop kwLine kws regexs (Lines scanner) line st = Done st') \/
  (negb (has_nil regexs) || no_line scanner = false /\
   scanLoop kwLine kws regexs (Lines scanner) line st = Panic nilDeref).
Proof.
  unfold no_line. destruct (has_nil regexs) eqn:Hnil; simpl.
  - apply has_nil_elem_of in Hnil.
    destruct (Lines scanner) as [|lineText lines] eqn:Hlines.
    + left. split; [done|]. by eexists.
    + right. split; [done|]. by apply scanLoop_panics.
  - left. split; [done|]. apply scanLoop_finishes. left.
    intros Hin%has_nil_elem_of. congruence.
Qed.

Lemma kwLoop_same_hit k1 k2 lineText l1 l2 kws st1 st2 :
  same_hit st1 st2 ->
  same_hit (kwLoop k1 lineText l1 kws st1) (kwLoop k2 lineText l2 kws st2).
Proof.
  revert st1 st2. induction kws as [|kw kws IH]; intros st1 st2 Hst; simpl;
    [done|].
  apply IH. by destruct (Contains lineText kw).
Qed.

Lemma reLoop_same_hit lineText l1 l2 regexs st1 st2 st1' :
  same_hit st1 st2 ->
  reLoop lineText l1 regexs st1 = Done st1' ->
  exists st2', reLoop lineText l2 regexs st2 = Done st2' /\ same_hit st1' st2'.
Proof.
  revert st1 st2. induction regexs as [|[re|] regexs IH]; intros st1 st2 Hst;
    simpl.
  - intros [= <-]. by eexists.
  - apply IH. by destruct (decide (FindString re lineText = "")).
  - done.
Qed.

Lemma scanLoop_same_hit k1 k2 kws regexs lines l1 l2 st1 st2 st1' :
  same_hit st1 st2 ->
  scanLoop k1 kws regexs lines l1 st1 = Done st1' ->
  exists st2',
    scanLoop k2 kws regexs lines l2 st2 = Done st2' /\ same_hit st1' st2'.
Proof.
  revert l1 l2 st1 st2.
  induction lines as [|lineText lines IH]; intros l1 l2 st1 st2 Hst; simpl.
  - intros [= <-]. by eexists.
  - destruct (reLoop lineText l1 regexs (kwLoop k1 lineText l1 kws st1))
      as [st1''|r] eqn:Hre; simpl; [|done].
    destruct (reLoop_same_hit lineText l1 l2 regexs _
                (kwLoop k2 lineText l2 kws st2) st1''
                (kwLoop_same_hit k1 k2 lineText l1 l2 kws st1 st2 Hst) Hre)
      as (st2'' & -> & Hst''). simpl. by apply IH.
Qed.

Lemma NewThreadSearchFile_scanned fs filePath kws regexs w :
  scanned fs kws regexs filePath w
    (NewThreadSearchFile fs filePath kws regexs w).
Proof.
  unfold scanned, scanError, reported, searchable. unfold_scan.
  destruct (fs filePath) as [f|[] msg]; simpl;
    [|by rewrite Nat.add_0_r..].
  destruct (scanLoop_cases kwLine_NewThread kws regexs
              (NewScanner maxTokenSize f) 1 ([], false))
    as [[Hfin [[k1 h1] Hd]]|[Hfin Hp]]; rewrite Hfin, ?Hd, ?Hp; simpl.
  - destruct (scanLoop_same_hit kwLine_NewThread kwLine_SameThread kws regexs
                _ 1 1 _ ([], false) _ eq_refl Hd) as ([k2 h2] & -> & Hh).
    unfold same_hit in Hh. simpl in Hh. subst h2.
    destruct (Err _) as [[|m]|], h1; simpl;
      rewrite ?length_app, ?app_nil_r, ?Nat.add_0_r; done.
  - destruct (scanLoop_cases kwLine_SameThread kws regexs
                (NewScanner maxTokenSize f) 1 ([], false))
      as [[? _]|[_ ->]]; [congruence|]. by rewrite Nat.add_0_r.
Qed.

Lemma SameThreadSearchFile_file_scanned fs kws regexs w file :
  scanned fs kws regexs (FilePath file) w
    (SameThreadSearchFile_file fs kws regexs w file).
Proof.
  unfold scanned, scanError, reported, searchable. unfold_scan.
  destruct (fs (FilePath file)) as [f|[] msg]; simpl;
    [|by rewrite Nat.add_0_r..].
  destruct (scanLoop_cases kwLine_SameThread kws regexs
              (NewScanner maxTokenSize f) 1 (Keywords file, false))
    as [[Hfin [[k1 h1] Hd]]|[Hfin Hp]]; rewrite Hfin, ?Hd, ?Hp; simpl.
  - destruct (scanLoop_same_hit kwLine_SameThread kwLine_SameThread kws regexs
                _ 1 1 (Keywords file, false) ([], false) _ eq_refl Hd)
      as ([k2 h2] & -> & Hh).
    unfold same_hit in Hh. simpl in Hh. subst h2.
    destruct (Err _) as [[|m]|], h1; simpl;
      rewrite ?length_app, ?app_nil_r, ?Nat.add_0_r; done.
  - destruct (scanLoop_cases kwLine_SameThread kws regexs
                (NewScanner maxTokenSize f) 1 ([], false))
      as [[? _]|[_ ->]]; [congruence|]. by rewrite Nat.add_0_r.
Qed.

(** The flag [hit] of a finished scan, told from the lines alone. *)
Lemma reported_matched fs kws regexs filePath :
  reported fs kws regexs filePath = matched fs kws regexs filePath.
Proof.
  unfold reported, matched.
  destruct (fs filePath) as [f|b msg]; [|done].
  destruct (scanLoop_cases kwLine_SameThread kws regexs
              (NewScanner maxTokenSize f) 1 ([], false))
    as [[-> [[k h] Hd]]|[-> ->]]; [|done].
  rewrite Hd. apply scanLoop_hit in Hd. simpl in Hd. subst h.
  by destruct (Err _).
Qed.

End ScanSummary.

(** ** A run, summed up *)

Section RunSummary.
Context `{L : Lib}.
Implicit Types (fs : FS) (kws : list string) (regexs : list (option Regexp)).
Implicit Types (w : World) (walk : list WalkEntry) (errs : list string).
Implicit Types (ignored_types : list string).

Lemma AddUint64_succ (n : nat) :
  AddUint64 (Z.of_nat n mod 2 ^ 64) 1 = Z.of_nat (S n) mod 2 ^ 64.
Proof.
  unfold AddUint64. rewrite Zplus_mod_idemp_l. f_equal. lia.
Qed.

Lemma tallies_eq f f' s s' o o' errs errs' w :
  f = f' -> s = s' -> o = o' -> errs = errs' ->
  tallies f s o errs w -> tallies f' s' o' errs' w.
Proof. by intros -> -> -> ->. Qed.

Lemma tallies_send_err f s o errs w msg :
  tallies f s o errs w -> tallies f s o (errs ++ [msg]) (send_err w msg).
Proof.
  intros (Hf & Hs & He & Ho & Herrs). repeat split; simpl; try done.
  by rewrite Herrs.
Qed.

Lemma tallies_add_found f s o errs w :
  tallies f s o errs w -> tallies (S f) s o errs (add_found w).
Proof.
  intros (Hf & Hs & He & Ho & Herrs). repeat split; simpl; try done.
  by rewrite Hf, AddUint64_succ.
Qed.

Lemma tallies_scanned fs kws regexs filePath f s o errs w w' :
  tallies f s o errs w ->
  scanned fs kws regexs filePath w w' ->
  tallies f
    (s + if searchable fs regexs filePath then 1 else 0)
    (o + if reported fs kws regexs filePath then 1 else 0)
    (errs ++ scanError fs regexs filePath) w'.
Proof.
  intros (Hf & Hs & He & Ho & Herrs) (Herr' & Hout' & Hcount').
  unfold tallies. rewrite Hcount', Herr', Hout', Ho, Herrs.
  destruct (searchable fs regexs filePath); simpl.
  - rewrite Hs, AddUint64_succ. repeat split; try done.
    f_equal. lia.
  - rewrite Nat.add_0_r. by repeat split.
Qed.

Lemma dispatched_cases ignored_types (e : WalkEntry) :
  dispatched ignored_types e =
  match err e with
  | Some _ => false
  | None => negb (IsDir e) && negb (ignoreLoop (path e) ignored_types)
  end.
Proof. done. Qed.

Lemma NewThreadFileFinder_tallies fs walk kws regexs ignored_types f s o errs w :
  tallies f s o errs w ->
  tallies (f + foundCount ignored_types walk)
    (s + searchedCount fs regexs ignored_types walk)
    (o + sentCount fs kws regexs ignored_types walk)
    (errs ++ runErrors fs regexs ignored_types walk)
    (NewThreadFileFinder fs walk kws regexs ignored_types w).
Proof.
  unfold NewThreadFileFinder, foundCount, searchedCount, sentCount, runErrors.
  revert f s o errs w. induction walk as [|e walk IH]; intros f s o errs w Hw.
  - simpl. eapply tallies_eq; [..|exact Hw]; try lia. by rewrite app_nil_r.
  - cbn [foldl]. rewrite !filter_cons, bind_cons.
    unfold NewThread_walkFunc at 2, entryErrors at 1, walkError.
    pose proof (dispatched_cases ignored_types e) as Hd.
    destruct (err e) as [msg|];
      [|destruct (IsDir e); [|destruct (ignoreLoop (path e) ignored_types)]];
      simpl in Hd; rewrite Hd; simpl.
    + eapply tallies_eq; [..|apply IH, tallies_send_err, Hw]; try done.
      by rewrite <- ?app_assoc.
    + eapply tallies_eq; [..|apply IH, Hw]; done.
    + eapply tallies_eq; [..|apply IH, Hw]; done.
    + pose proof (tallies_scanned fs kws regexs (path e) _ _ _ _ _ _
                    (tallies_add_found _ _ _ _ _ Hw)
                    (NewThreadSearchFile_scanned fs (path e) kws regexs
                       (add_found w))) as Hstep.
      eapply tallies_eq; [..|apply IH, Hstep].
      * simpl. lia.
      * destruct (searchable fs regexs (path e)); simpl; lia.
      * destruct (reported fs kws regexs (path e)); simpl; lia.
      * by rewrite <- app_assoc.
Qed.

Lemma SameThreadFileFinder_tallies walk ignored_types f s o errs w
    (fileChan : list FoundFile) :
  tallies f s o errs w ->
  tallies (f + foundCount ignored_types walk) s o
    (errs ++ (walk ≫= walkError))
    (foldl (SameThread_walkFunc ignored_types) (w, fileChan) walk).1 /\
  (foldl (SameThread_walkFunc ignored_types) (w, fileChan) walk).2 =
    fileChan ++
    ((fun e => mkFoundFile (path e) [])
       <$> filter (fun e => dispatched ignored_types e = true) walk).
Proof.
  unfold foundCount.
  revert f errs w fileChan.
  induction walk as [|e walk IH]; intros f errs w fileChan Hw.
  - simpl. split; [|by rewrite app_nil_r].
    eapply tallies_eq; [..|exact Hw]; try lia; try done. by rewrite app_nil_r.
  - cbn [foldl]. rewrite !filter_cons, bind_cons.
    unfold SameThread_walkFunc at 2 4, walkError at 1.
    pose proof (dispatched_cases ignored_types e) as Hd.
    destruct (err e) as [msg|];
      [|destruct (IsDir e); [|destruct (ignoreLoop (path e) ignored_types)]];
      simpl in Hd; rewrite Hd; simpl.
    + destruct (IH f _ _ fileChan (tallies_send_err _ _ _ _ _
                  (errLine (path e) msg) Hw)) as [Ht Hc].
      split; [|done].
      eapply tallies_eq; [..|exact Ht]; try done. by rewrite <- app_assoc.
    + by apply IH.
    + by apply IH.
    + destruct (IH _ _ _ (fileChan ++ [mkFoundFile (path e) []])
                  (tallies_add_found _ _ _ _ _ Hw)) as [Ht Hc].
      split.
      * eapply tallies_eq; [..|exact Ht]; try done. simpl. lia.
      * rewrite Hc. csimpl. by rewrite <- app_assoc.
Qed.

Lemma SameThreadSearchFile_tallies fs kws regexs ignored_types walk f s o errs w :
  tallies f s o errs w ->
  tallies f
    (s + searchedCount fs regexs ignored_types walk)
    (o + sentCount fs kws regexs ignored_types walk)
    (errs ++ (filter (fun e => dispatched ignored_types e = true) walk
                ≫= fun e => scanError fs regexs (path e)))
    (SameThreadSearchFile fs kws regexs
       ((fun e => mkFoundFile (path e) [])
          <$> filter (fun e => dispatched ignored_types e = true) walk) w).
Proof.
  unfold SameThreadSearchFile, searchedCount, sentCount.
  revert s o errs w. induction walk as [|e walk IH]; intros s o errs w Hw.
  - simpl. eapply tallies_eq; [..|exact Hw]; try lia; try done.
    by rewrite app_nil_r.
  - rewrite !filter_cons.
    destruct (dispatched ignored_types e) eqn:Hd; simpl; [|by apply IH].
    csimpl.
    pose proof (tallies_scanned fs kws regexs (path e) _ _ _ _ _ _ Hw
                  (SameThreadSearchFile_file_scanned fs kws regexs w
                     (mkFoundFile (path e) []))) as Hstep.
    eapply tallies_eq; [..|apply IH, Hstep]; try done.
    + destruct (searchable fs regexs (path e)); simpl; lia.
    + destruct (reported fs kws regexs (path e)); simpl; lia.
    + by rewrite <- app_assoc.
Qed.

Lemma runErrors_split fs regexs ignored_types walk :
  (walk ≫= walkError) ++
  (filter (fun e => dispatched ignored_types e = true) walk
     ≫= fun e => scanError fs regexs (path e))
  ≡ₚ runErrors fs regexs ignored_types walk.
Proof.
  unfold runErrors. induction walk as [|e walk IH]; [done|].
  rewrite filter_cons, !bind_cons. unfold entryErrors at 1.
  rewrite <- IH.
  destruct (dispatched ignored_types e).
  - rewrite decide_True by done. rewrite bind_cons, <- !app_assoc. f_equiv.
    rewrite !app_assoc. f_equiv. apply Permutation_app_comm.
  - rewrite decide_False by done. by rewrite app_nil_r, <- app_assoc.
Qed.

Lemma ErrorCollector_spec errs (n : nat) :
  ErrorCollector errs (Z.of_nat n mod 2 ^ 64) =
  ((fun msg => msg +:+ nl) <$> errs,
   Z.of_nat (n + length errs) mod 2 ^ 64).
Proof.
  revert n. induction errs as [|msg errs IH]; intros n; simpl.
  - by rewrite Nat.add_0_r.
  - rewrite AddUint64_succ, IH. do 3 f_equal. lia.
Qed.

Lemma tallies_w0 :
  tallies 0 0 0 []
    {| outputChan := []; errChan := []; fileCounter := mkNumFiles 0 0 0 0 |}.
Proof. by repeat split. Qed.

Lemma run_world_outcome w errs found searched sent :
  tallies found searched sent errs w ->
  NumIgnored (fileCounter w) = 0 ->
  (let '(lines, numErrors) :=
     ErrorCollector (errChan w) (NumErrors (fileCounter w)) in
   {| output_file := FileCollector (outputChan w);
      error_file := lines;
      counters :=
        {| FoundFiles := FoundFiles (fileCounter w);
           SearchedFiles := SearchedFiles (fileCounter w);
           NumErrors := numErrors;
           NumIgnored := NumIgnored (fileCounter w) |} |}) =
  {| output_file := FileCollector (outputChan w);
     error_file := (fun msg => msg +:+ nl) <$> errs;
     counters :=
       mkNumFiles (Z.of_nat found mod 2 ^ 64) (Z.of_nat searched mod 2 ^ 64)
         (Z.of_nat (length errs) mod 2 ^ 64) 0 |}.
Proof.
  intros (Hf & Hs & He & Ho & Herrs) Hi.
  rewrite He, Herrs, Hf, Hs, Hi.
  change 0 with (Z.of_nat 0 mod 2 ^ 64) at 1.
  by rewrite ErrorCollector_spec.
Qed.

(** What a run comes to, in either mode: the error lines are those of
    [runErrors] up to their order, [sentCount] lines are written to the
    output file, and the counters are the counts modulo [2^64]. *)
Lemma run_summary newThread fs walk kws regexs ignored_strings :
  exists errs (out : list FoundFile),
    errs ≡ₚ runErrors fs regexs ignored_strings walk /\
    length out = sentCount fs kws regexs ignored_strings walk /\
    run newThread fs walk kws regexs ignored_strings =
    {| output_file := FileCollector out;
       error_file := (fun msg => msg +:+ nl) <$> errs;
       counters :=
         mkNumFiles
           (Z.of_nat (foundCount ignored_strings walk) mod 2 ^ 64)
           (Z.of_nat (searchedCount fs regexs ignored_strings walk) mod 2 ^ 64)
           (Z.of_nat (length errs) mod 2 ^ 64) 0 |}.
Proof.
  unfold run. destruct newThread.
  - pose proof (NewThreadFileFinder_tallies fs walk kws regexs
                  ignored_strings _ _ _ _ _ tallies_w0) as Ht.
    pose proof (NewThreadFileFinder_NumIgnored fs walk kws regexs
                  ignored_strings (mkWorld [] [] (mkNumFiles 0 0 0 0))) as Hi.
    simpl in Ht, Hi.
    eexists _, _.
    split; [|split; [|exact (run_world_outcome _ _ _ _ _ Ht Hi)]].
    + done.
    + by destruct Ht as (_ & _ & _ & ? & _).
  - pose proof (SameThreadFileFinder_tallies walk ignored_strings
                  _ _ _ _ _ [] tallies_w0) as [Ht Hc].
    pose proof (SameThreadFileFinder_NumIgnored walk ignored_strings
                  (mkWorld [] [] (mkNumFiles 0 0 0 0))) as Hi.
    unfold SameThreadFileFinder in *.
    destruct (foldl _ _ walk) as [w1 fileChan]. simpl in Ht, Hc, Hi.
    subst fileChan.
    pose proof (SameThreadSearchFile_tallies fs kws regexs ignored_strings
                  walk _ _ _ _ _ Ht) as Ht'.
    pose proof (SameThreadSearchFile_NumIgnored fs kws regexs
                  ((fun e => mkFoundFile (path e) [])
                     <$> filter (fun e => dispatched ignored_strings e = true)
                           walk) w1) as Hi'.
    rewrite Hi in Hi'. simpl in Ht'.
    eexists _, _.
    split; [|split; [|exact (run_world_outcome _ _ _ _ _ Ht' Hi')]].
    + apply runErrors_split.
    + by destruct Ht' as (_ & _ & _ & ? & _).
Qed.

End RunSummary.

(** ** The counters and the two files after a run *)

Section RunResults.
Context `{L : Lib}.
Implicit Types (fs : FS) (kws : list string) (regexs : list (option Regexp)).
Implicit Types (walk : list WalkEntry) (ignored_strings : list string).

Lemma FileCollector_length (filesChan : list FoundFile) :
  length (FileCollector filesChan) = length filesChan.
Proof. unfold FileCollector. apply length_map. Qed.

Lemma wrapped_count_bounded (n : nat) :
  0 <= Z.of_nat n mod 2 ^ 64 <= Z.of_nat n.
Proof.
  split; [apply Z.mod_pos_bound; lia|apply Z.mod_le; lia].
Qed.

Lemma sentCount_matchedCount fs kws regexs ignored_strings walk :
  sentCount fs kws regexs ignored_strings walk =
  matchedCount fs kws regexs ignored_strings walk.
Proof.
  unfold sentCount, matchedCount. induction walk as [|e walk IH]; [done|].
  rewrite !filter_cons, reported_matched.
  destruct (decide _); simpl; by rewrite IH.
Qed.

(** X1. The counters never run ahead of the walk, in either mode:
    [FoundFiles] is at most the number of entries that are files, came
    without error and pass the ignore filter; [SearchedFiles] is at most
    the number of those whose file opens and whose read loop runs to its
    end (no pattern is nil, or the file has no line); [NumErrors] is at
    most the number of entries the walk reports with an error plus the
    number of dispatched files whose scan fails. *)
Theorem run_counters_bounded newThread fs walk kws regexs ignored_strings :
  0 <= FoundFiles (counters (run newThread fs walk kws regexs ignored_strings))
    <= Z.of_nat (foundCount ignored_strings walk) /\
  0 <= SearchedFiles
         (counters (run newThread fs walk kws regexs ignored_strings))
    <= Z.of_nat (searchedCount fs regexs ignored_strings walk) /\
  0 <= NumErrors (counters (run newThread fs walk kws regexs ignored_strings))
    <= Z.of_nat (length (runErrors fs regexs ignored_strings walk)).
Proof.
  destruct (run_summary newThread fs walk kws regexs ignored_strings)
    as (errs & out & Hperm & _ & ->).
  simpl. rewrite Hperm. repeat split; apply wrapped_count_bounded.
Qed.

(** X2. The error file holds no line but these, and each at most as
    often as it is listed: one line for every entry the walk reports with
    an error, and one line for every dispatched file whose scan fails (the
    open error, else the recovered panic of a nil pattern when the file
    has a line, else the error of the scanner).  In either mode. *)
Theorem run_error_file_within newThread fs walk kws regexs ignored_strings :
  error_file (run newThread fs walk kws regexs ignored_strings) ⊆+
  (fun msg => msg +:+ nl) <$> runErrors fs regexs ignored_strings walk.
Proof.
  destruct (run_summary newThread fs walk kws regexs ignored_strings)
    as (errs & out & Hperm & _ & ->).
  simpl. by rewrite Hperm.
Qed.

(** X3. The output file never has more lines than there are dispatched
    files that open, are read to their end without error, and have a line
    in which a keyword occurs or a pattern matches text.  In either
    mode. *)
Theorem run_output_lines_bounded newThread fs walk kws regexs ignored_strings :
  (length (output_file (run newThread fs walk kws regexs ignored_strings)) <=
   matchedCount fs kws regexs ignored_strings walk)%nat.
Proof.
  destruct (run_summary newThread fs walk kws regexs ignored_strings)
    as (errs & out & _ & Hout & ->).
  simpl. by rewrite FileCollector_length, Hout, sentCount_matchedCount.
Qed.

Lemma filter_length_le {A} (P Q : A -> Prop) `{!forall x, Decision (P x)}
    `{!forall x, Decision (Q x)} (l : list A) :
  (forall x, P x -> Q x) -> (length (filter P l) <= length (filter Q l))%nat.
Proof.
  intros HPQ. induction l as [|x l IH]; [done|].
  rewrite !filter_cons. destruct (decide (P x)) as [HP|HP].
  - rewrite decide_True by auto. simpl. lia.
  - destruct (decide (Q x)); simpl; lia.
Qed.

Lemma reported_searchable fs kws regexs filePath :
  reported fs kws regexs filePath = true ->
  searchable fs regexs filePath = true /\ scanError fs regexs filePath = [].
Proof.
  unfold reported, searchable, scanError.
  destruct (fs filePath) as [f|b msg]; [|done].
  destruct (scanLoop_cases kwLine_SameThread kws regexs
              (NewScanner maxTokenSize f) 1 ([], false))
    as [[-> _]|[_ ->]]; [|done].
  destruct (scanLoop _ _ _ _ _ _) as [[k h]|r]; [|done].
  by destruct (Err _).
Qed.

Lemma scanError_length fs regexs filePath :
  (length (scanError fs regexs filePath) <= 1)%nat.
Proof.
  unfold scanError. repeat case_match; simpl; lia.
Qed.

Lemma records_per_entry fs kws regexs ignored_strings walk :
  (length (runErrors fs regexs ignored_strings walk) +
   sentCount fs kws regexs ignored_strings walk <= length walk)%nat.
Proof.
  unfold runErrors, sentCount. induction walk as [|e walk IH]; [done|].
  rewrite bind_cons, filter_cons, length_app. unfold entryErrors at 1.
  rewrite length_app. unfold walkError at 1.
  pose proof (dispatched_cases ignored_strings e) as Hd.
  pose proof (scanError_length fs regexs (path e)) as Hlen.
  destruct (err e) as [msg|]; simpl in Hd; rewrite Hd; simpl; [lia|].
  destruct (negb (IsDir e) && negb (ignoreLoop (path e) ignored_strings));
    simpl; [|lia].
  destruct (reported fs kws regexs (path e)) eqn:Hrep; simpl; [|lia].
  apply reported_searchable in Hrep as [_ ->]. simpl. lia.
Qed.

(** X5. For a walk of fewer than [2^64] entries, the counters and the
    files of a run are ordered as their names promise, in either mode:
    [SearchedFiles <= FoundFiles <=] the number of entries; the output
    file has at most [SearchedFiles] lines; and the error lines and the
    output lines together are at most one per entry. *)
Theorem run_counters_ordered newThread fs walk kws regexs ignored_strings :
  Z.of_nat (length walk) < 2 ^ 64 ->
  0 <= SearchedFiles (counters (run newThread fs walk kws regexs ignored_strings))
    <= FoundFiles (counters (run newThread fs walk kws regexs ignored_strings)) /\
  FoundFiles (counters (run newThread fs walk kws regexs ignored_strings))
    <= Z.of_nat (length walk) /\
  Z.of_nat (length (output_file
                      (run newThread fs walk kws regexs ignored_strings)))
    <= SearchedFiles (counters
                        (run newThread fs walk kws regexs ignored_strings)) /\
  NumErrors (counters (run newThread fs walk kws regexs ignored_strings)) +
  Z.of_nat (length (output_file
                      (run newThread fs walk kws regexs ignored_strings)))
    <= Z.of_nat (length walk).
Proof.
  intros Hwalk.
  destruct (run_summary newThread fs walk kws regexs ignored_strings)
    as (errs & out & Hperm & Hout & ->).
  simpl. rewrite FileCollector_length, Hout, Hperm.
  pose proof (records_per_entry fs kws regexs ignored_strings walk) as Hrec.
  assert (sentCount fs kws regexs ignored_strings walk
          <= searchedCount fs regexs ignored_strings walk)%nat as Hss.
  { apply filter_length_le. intros e.
    destruct (dispatched ignored_strings e); simpl; [|done].
    by intros [? _]%reported_searchable. }
  assert (searchedCount fs regexs ignored_strings walk
          <= foundCount ignored_strings walk)%nat as Hsf.
  { apply filter_length_le. intros e.
    by destruct (dispatched ignored_strings e). }
  assert (foundCount ignored_strings walk <= length walk)%nat as Hfw
    by apply length_filter.
  rewrite !Z.mod_small by lia. lia.
Qed.

End RunResults.

(** ** Keywords and substrings *)

Section Substrings.
Context `{L : Lib}.
Implicit Types (kwLine : string -> Z -> string) (st : LoopState).

Lemma prefix_app (sub s : string) :
  String.prefix sub s = true <-> exists post, s = sub +:+ post.
Proof.
  revert s. induction sub as [|a sub IH]; intros s.
  - split; [intros _; by exists s|]. intros _. by destruct s.
  - destruct s as [|b s]; simpl.
    + split; [done|]. by intros [post ?].
    + destruct (ascii_dec a b) as [->|Hne].
      * rewrite IH. split; intros [post Hpost]; exists post.
        -- by rewrite Hpost.
        -- by injection Hpost.
      * split; [done|]. intros [post Hpost]. by injection Hpost.
Qed.

Lemma Contains_substring (s sub : string) :
  Contains s sub = true <-> exists pre post, s = pre +:+ sub +:+ post.
Proof.
  induction s as [|a s IH]; cbn [Contains].
  - rewrite orb_false_r, prefix_app. split.
    + intros [post Hpost]. by exists "", post.
    + intros (pre & post & Hs). destruct pre; [by exists post|done].
  - rewrite orb_true_iff, prefix_app, IH. split.
    + intros [[post Hpost]|(pre & post & ->)].
      * by exists "", post.
      * by exists (String a pre), post.
    + intros (pre & post & Hs). destruct pre as [|b pre].
      * left. by exists post.
      * right. exists pre, post. by injection Hs.
Qed.

(** X6. On one line, the keyword loop appends the formatted entries of a
    selection [hits] of [kws], kept in the order of [kws]; a keyword of
    [kws] is selected exactly when it occurs in the line as a run of
    bytes: [lineText = pre ++ kw ++ post]. *)
Theorem keyword_recorded_iff_substring kwLine lineText line
    (kws : list string) st :
  exists hits,
    (kwLoop kwLine lineText line kws st).1 =
      st.1 ++ ((fun kw => kwLine kw line) <$> hits) /\
    hits `sublist_of` kws /\
    forall kw, kw ∈ kws ->
      (kw ∈ hits <-> exists pre post, lineText = pre +:+ kw +:+ post).
Proof.
  exists (keywordHits lineText kws). split; [apply kwLoop_keywords|].
  split; [apply sublist_filter|].
  intros kw Hkw. unfold keywordHits.
  rewrite list_elem_of_filter, Contains_substring.
  split; [by intros [Hocc _]|by intros Hocc].
Qed.

End Substrings.

(** ** The lines the scanner delivers *)

Section ScannerBounds.

Lemma rev_app_length (s1 s2 : string) :
  String.length (String.rev_app s1 s2) =
  (String.length s1 + String.length s2)%nat.
Proof.
  revert s2. induction s1 as [|a s1 IH]; intros s2; simpl; [done|].
  rewrite IH. simpl. lia.
Qed.

Lemma token_length (rtok : string) :
  (String.length (token rtok) <= String.length rtok)%nat.
Proof.
  unfold token, String.rev. rewrite rev_app_length, Nat.add_0_r.
  unfold dropCR_rev. destruct rtok as [|c rtok]; [done|].
  destruct (Ascii.eqb c carriage_return); simpl; lia.
Qed.

Lemma scanTokens_short max data rtok n :
  n = N.of_nat (String.length rtok) ->
  Forall (fun l => (N.of_nat (String.length l) < max)%N)
    (scanTokens max data rtok n).1.
Proof.
  revert rtok n. induction data as [|c data IH]; intros rtok n Hn; simpl.
  - destruct (n =? 0)%N; [constructor|].
    destruct (max <=? n)%N eqn:Hmax; [constructor|].
    apply N.leb_gt in Hmax. repeat constructor.
    pose proof (token_length rtok). lia.
  - destruct (Ascii.eqb c newline).
    + destruct (max <=? n)%N eqn:Hmax; [constructor|].
      apply N.leb_gt in Hmax.
      specialize (IH "" 0%N eq_refl).
      destruct (scanTokens max data "" 0) as [l e]. simpl in *.
      constructor; [|done]. pose proof (token_length rtok). lia.
    + apply IH. simpl. lia.
Qed.

Lemma scanTokens_fits max data rtok n :
  (n + N.of_nat (String.length data) < max)%N ->
  (scanTokens max data rtok n).2 = false.
Proof.
  revert rtok n. induction data as [|c data IH]; intros rtok n Hn; simpl in *.
  - destruct (n =? 0)%N; [done|].
    destruct (max <=? n)%N eqn:Hmax; [|done]. apply N.leb_le in Hmax. lia.
  - destruct (Ascii.eqb c newline).
    + destruct (max <=? n)%N eqn:Hmax; [apply N.leb_le in Hmax; lia|].
      specialize (IH "" 0%N).
      destruct (scanTokens max data "" 0) as [l e]. simpl in *.
      apply IH. lia.
    + apply IH. lia.
Qed.

Lemma scanTokens_full max data rtok n :
  (0 < n)%N -> (max <= n)%N -> (scanTokens max data rtok n).2 = true.
Proof.
  revert rtok n. induction data as [|c data IH]; intros rtok n H0 Hmax; simpl.
  - destruct (n =? 0)%N eqn:Hn; [apply N.eqb_eq in Hn; lia|].
    by rewrite (proj2 (N.leb_le max n) Hmax).
  - destruct (Ascii.eqb c newline).
    + by rewrite (proj2 (N.leb_le max n) Hmax).
    + apply IH; lia.
Qed.

Lemma scanTokens_long_run max (long post : string) rtok n :
  (0 < max)%N -> has_byte newline long = false ->
  (max <= n + N.of_nat (String.length long))%N ->
  (scanTokens max (long +:+ post) rtok n).2 = true.
Proof.
  intros Hpos. revert rtok n.
  induction long as [|c long IH]; intros rtok n Hnl Hlen.
  - apply scanTokens_full; simpl in Hlen; lia.
  - change (String c long +:+ post) with (String c (long +:+ post)).
    cbn [has_byte] in Hnl. apply orb_false_iff in Hnl as [Hc Hnl].
    cbn [scanTokens]. rewrite Ascii.eqb_sym, Hc.
    apply IH; [done|]. simpl String.length in Hlen. lia.
Qed.

Lemma scanTokens_after max (pre long post : string) rtok n :
  (0 < max)%N -> has_byte newline long = false ->
  (max <= N.of_nat (String.length long))%N ->
  (scanTokens max (pre +:+ long +:+ post) rtok n).2 = true.
Proof.
  intros Hpos Hnl Hlen. revert rtok n.
  induction pre as [|c pre IH]; intros rtok n.
  - apply (scanTokens_long_run max long post); [done..|lia].
  - change (String c pre +:+ long +:+ post)
      with (String c (pre +:+ long +:+ post)).
    cbn [scanTokens]. destruct (Ascii.eqb c newline); [|apply IH].
    destruct (max <=? n)%N; [done|].
    specialize (IH "" 0%N).
    by destruct (scanTokens max (pre +:+ long +:+ post) "" 0).
Qed.

(** X17. A file that holds [1024*1024] bytes in a row without a newline
    ends its scan with [ErrTooLong], wherever the run stands in the file
    and however the read ends. *)
Theorem long_line_ends_the_scan (f : File) (pre long post : string) :
  content f = pre +:+ long +:+ post ->
  has_byte newline long = false ->
  (1024 * 1024 <= N.of_nat (String.length long))%N ->
  Err (NewScanner maxTokenSize f) = Some ErrTooLong.
Proof.
  intros Hcontent Hnl Hlen.
  pose proof (scanTokens_after maxTokenSize pre long post "" 0) as Hfull.
  unfold NewScanner. rewrite Hcontent.
  destruct (scanTokens _ _ _ _) as [l e]. simpl in Hfull.
  by rewrite Hfull.
Qed.

(** X7. Every line the scanners hand to the keyword and pattern loops is
    shorter than the buffer of [1024*1024] bytes. *)
Theorem scanned_lines_fit_the_buffer (f : File) :
  Forall (fun lineText => (N.of_nat (String.length lineText) < 1024 * 1024)%N)
    (Lines (NewScanner maxTokenSize f)).
Proof.
  pose proof (scanTokens_short maxTokenSize (content f) "" 0 eq_refl) as Hs.
  unfold NewScanner. by destruct (scanTokens _ _ _ _) as [l e].
Qed.

(** X8. A file of fewer than [1024*1024] bytes never ends its scan with
    [ErrTooLong]: [scanner.Err()] is nil at the end of the file, and the
    read error when the read failed. *)
Theorem short_file_is_never_too_long (f : File) :
  (N.of_nat (String.length (content f)) < 1024 * 1024)%N ->
  Err (NewScanner maxTokenSize f) =
  match read_end f with
  | EOF => None
  | ReadError msg => Some (ErrRead msg)
  end.
Proof.
  intros Hlen.
  pose proof (scanTokens_fits maxTokenSize (content f) "" 0) as Hfit.
  unfold NewScanner. destruct (scanTokens _ _ _ _) as [l e]. simpl in *.
  rewrite Hfit; [done|]. unfold maxTokenSize. lia.
Qed.

End ScannerBounds.

(** ** A clean scan *)

Section CleanScan.
Context `{L : Lib}.
Implicit Types (fs : FS) (kws : list string) (regexs : list (option Regexp)).
Implicit Types (w : World) (st : LoopState).
Implicit Types (kwLine : string -> Z -> string) (lines : list string).

Lemma appended_not_nil {A} (l : list A) (x : A) : l ++ [x] ≠ [].
Proof. by destruct l. Qed.

Lemma kwLoop_hit_exact kwLine lineText line kws st :
  hit_exact st -> hit_exact (kwLoop kwLine lineText line kws st).
Proof.
  revert st. induction kws as [|kw kws IH]; intros st Hst; simpl; [done|].
  apply IH. destruct (Contains lineText kw); [|done].
  split; [intros _; apply appended_not_nil|done].
Qed.

Lemma reLoop_hit_exact lineText line regexs st st' :
  hit_exact st -> reLoop lineText line regexs st = Done st' -> hit_exact st'.
Proof.
  revert st. induction regexs as [|[re|] regexs IH]; intros st Hst; simpl.
  - by intros [= <-].
  - apply IH. destruct (decide (FindString re lineText = "")); [done|].
    split; [intros _; apply appended_not_nil|done].
  - done.
Qed.

Lemma scanLoop_hit_exact kwLine kws regexs lines line st st' :
  hit_exact st -> scanLoop kwLine kws regexs lines line st = Done st' ->
  hit_exact st'.
Proof.
  revert line st. induction lines as [|lineText lines IH]; intros line st Hst;
    simpl.
  - by intros [= <-].
  - destruct (reLoop lineText line regexs (kwLoop kwLine lineText line kws st))
      as [st1|r] eqn:Hre; simpl; [|done].
    apply IH. eapply reLoop_hit_exact; [|done]. by apply kwLoop_hit_exact.
Qed.

Lemma scanLoop_clean kwLine kws regexs lines :
  None ∉ regexs -> Z.of_nat (length lines) <= maxInt ->
  scanLoop kwLine kws regexs lines 1 ([], false) =
  Done (render kwLine <$> fileDescriptors kws (compiled regexs) lines 1,
        match fileDescriptors kws (compiled regexs) lines 1 with
        | [] => false
        | _ :: _ => true
        end).
Proof.
  intros Hnot Hlen.
  destruct (scanLoop_fileDescriptors kwLine kws (compiled regexs) lines 1
              ([], false)) as [hit Hd]; [lia..|].
  rewrite <- (regexs_compiled regexs Hnot) in Hd. rewrite Hd. simpl.
  assert (hit_exact ([], false)) as H0 by (split; done).
  pose proof (scanLoop_hit_exact _ _ _ _ _ _ _ H0 Hd) as [Hh1 Hh2].
  simpl in Hh1, Hh2.
  destruct (fileDescriptors kws (compiled regexs) lines 1) as [|d ds];
    simpl in *.
  - destruct hit; [by destruct Hh1|done].
  - rewrite Hh2; done.
Qed.

(** X9. When a file of fewer than [2^63] bytes opens, no pattern is nil
    and the scanner ends without error, the scan counts the file as
    searched and sends nothing if no keyword and no pattern matched any
    line; otherwise it sends one [FoundFile] carrying every match of the
    file, under the path with its white space trimmed in the mode
    [newthread=true] and under the path as walked in the other mode. *)
Theorem clean_scan_reports_all_matches fs filePath kws regexs w f :
  fs filePath = OpenOk f ->
  Err (NewScanner maxTokenSize f) = None ->
  None ∉ regexs ->
  Z.of_nat (String.length (content f)) <= maxInt ->
  NewThreadSearchFile fs filePath kws regexs w =
    match fileDescriptors kws (compiled regexs)
            (Lines (NewScanner maxTokenSize f)) 1 with
    | [] => add_searched w
    | d :: ds =>
        send_file (add_searched w)
          (mkFoundFile (TrimSpace filePath)
             (render kwLine_NewThread <$> d :: ds))
    end /\
  SameThreadSearchFile_file fs kws regexs w (mkFoundFile filePath []) =
    match fileDescriptors kws (compiled regexs)
            (Lines (NewScanner maxTokenSize f)) 1 with
    | [] => add_searched w
    | d :: ds =>
        send_file (add_searched w)
          (mkFoundFile filePath (render kwLine_SameThread <$> d :: ds))
    end.
Proof.
  intros Hfs Herr Hnot Hsize.
  pose proof (Lines_length maxTokenSize f) as Hlen.
  unfold_scan. rewrite Hfs, Herr.
  rewrite !scanLoop_clean by (done || lia).
  by destruct (fileDescriptors _ _ _ _).
Qed.

(** X10. The error line of a scan depends on the file, its path and the
    patterns alone: the open error; else, when a pattern is nil and the
    file has a line, the recovered panic; else the error of the scanner;
    else none.  A worker of [SameThreadSearchFile] always sends it.
    [NewThreadSearchFile] sends it whenever it returns; when it meets
    [errChan] closed the line was that of the recovered panic and is not
    sent. *)
Theorem scan_error_line (others : nat) (main_first : bool) fs filePath kws
    regexs (s : Shared) :
  errChan_closed s = false -> Z.of_nat others < wg s ->
  (exists s',
      SameThreadSearchFile_task others main_first fs kws regexs s
        (mkFoundFile filePath []) = Returned s' /\
      errChan (world s') =
        errChan (world s) ++ scanError fs regexs filePath) /\
  match NewThreadSearchFile_task others main_first fs filePath kws regexs s
  with
  | Returned s' =>
      errChan (world s') = errChan (world s) ++ scanError fs regexs filePath
  | Crashed s' _ =>
      errChan (world s') = errChan (world s) /\
      scanError fs regexs filePath = [errLine filePath nilDeref]
  end.
Proof.
  intros Hopen Hwg. split.
  - destruct (SameThreadSearchFile_task_Returned others main_first fs kws
                regexs s (mkFoundFile filePath []) Hopen Hwg)
      as (s' & Htask & Hworld).
    exists s'. split; [done|]. rewrite Hworld.
    apply (SameThreadSearchFile_file_scanned fs kws regexs (world s)
             (mkFoundFile filePath [])).
  - destruct (NewThreadSearchFile_task others main_first fs filePath kws
                regexs s) as [s'|s' r] eqn:Htask.
    + rewrite (NewThreadSearchFile_task_Returned _ _ _ _ _ _ _ _ Htask).
      apply NewThreadSearchFile_scanned.
    + apply NewThreadSearchFile_task_Crashed in Htask
        as (_ & _ & _ & (f & Hfs & Hin & Hne) & ->); [|done].
      split; [done|]. unfold scanError. rewrite Hfs.
      apply has_nil_elem_of in Hin. rewrite Hin. unfold no_line.
      by destruct (Lines _).
Qed.

(** X4. The two scanners treat a file alike: when both return, they have
    sent the same error line or none, they have both sent a [FoundFile] or
    neither has, and they leave the same counters. *)
Theorem scanners_agree_on_a_file (others1 others2 : nat)
    (main_first1 main_first2 : bool) fs filePath kws regexs
    (s s1 s2 : Shared) :
  NewThreadSearchFile_task others1 main_first1 fs filePath kws regexs s =
    Returned s1 ->
  SameThreadSearchFile_task others2 main_first2 fs kws regexs s
    (mkFoundFile filePath []) = Returned s2 ->
  errChan (world s1) = errChan (world s2) /\
  length (outputChan (world s1)) = length (outputChan (world s2)) /\
  fileCounter (world s1) = fileCounter (world s2).
Proof.
  intros H1%NewThreadSearchFile_task_Returned
         H2%SameThreadSearchFile_task_world.
  destruct (NewThreadSearchFile_scanned fs filePath kws regexs (world s))
    as (He1 & Ho1 & Hc1).
  destruct (SameThreadSearchFile_file_scanned fs kws regexs (world s)
              (mkFoundFile filePath [])) as (He2 & Ho2 & Hc2).
  simpl in He2, Ho2, Hc2.
  rewrite H1, H2, He1, He2, Ho1, Ho2, Hc1, Hc2. done.
Qed.

End CleanScan.

(** ** The input files of [main] *)

Section InputFileResults.
Context `{L : Lib}.
Implicit Types (lines acc : list string) (regexs : list (option Regexp)).

Lemma loadLines_spec lines acc :
  loadLines lines acc =
  acc ++ filter (fun clean => clean ≠ "") (TrimSpace <$> lines).
Proof.
  revert acc. induction lines as [|text lines IH]; intros acc; csimpl.
  - by rewrite app_nil_r.
  - rewrite filter_cons.
    destruct (decide (TrimSpace text = "")) as [He|He].
    + by rewrite decide_False by (by intros ?).
    + rewrite decide_True by done. by rewrite IH, <- app_assoc.
Qed.

Lemma loadRegexs_spec lines regexs (printed : list string) :
  (loadRegexs lines regexs printed).1 =
    regexs ++
    (compileLine <$> filter (fun clean => clean ≠ "") (TrimSpace <$> lines)) /\
  length (loadRegexs lines regexs printed).2 =
    (length printed +
     length (filter (fun r => is_nil r = true)
               (compileLine
                  <$> filter (fun clean => clean ≠ "") (TrimSpace <$> lines))))%nat.
Proof.
  revert regexs printed.
  induction lines as [|text lines IH]; intros regexs printed; csimpl.
  - by rewrite app_nil_r, Nat.add_0_r.
  - rewrite filter_cons.
    destruct (decide (TrimSpace text = "")) as [He|He].
    + rewrite decide_False by (by intros ?). apply IH.
    + rewrite decide_True by done. csimpl. rewrite filter_cons.
      destruct (regexp_Compile (TrimSpace text)) as [re|e] eqn:Hc.
      * assert (compileLine (TrimSpace text) = Some re) as ->
          by (unfold compileLine; by rewrite Hc).
        destruct (IH (regexs ++ [Some re]) printed) as [-> ->].
        split; [by rewrite <- app_assoc|done].
      * assert (compileLine (TrimSpace text) = None) as ->
          by (unfold compileLine; by rewrite Hc).
        match goal with
        | |- context [loadRegexs lines ?rs ?pr] =>
            destruct (IH rs pr) as [-> ->]
        end.
        split; [by rewrite <- app_assoc|].
        rewrite length_app. simpl. lia.
Qed.

(** X11. The slice of patterns [main] builds from the regex file has one
    entry for every line that is not blank once trimmed, in the order of
    the file: the compiled pattern, or nil when the line does not compile;
    and [main] prints one diagnostic for every nil entry. *)
Theorem regex_file_gives_one_entry_per_line lines :
  (loadRegexs lines [] []).1 =
    compileLine <$> filter (fun clean => clean ≠ "") (TrimSpace <$> lines) /\
  length (loadRegexs lines [] []).2 =
    length (filter (fun r => is_nil r = true) (loadRegexs lines [] []).1).
Proof.
  destruct (loadRegexs_spec lines [] []) as [H1 H2].
  rewrite H2, H1. done.
Qed.

Lemma kwLoop_blank_line kwLine line (kws : list string) (st : LoopState) :
  Forall (fun kw => kw ≠ "") kws -> kwLoop kwLine "" line kws st = st.
Proof.
  intros Hkws. revert st.
  induction Hkws as [|kw kws Hkw _ IH]; intros st; simpl; [done|].
  rewrite IH. by destruct kw.
Qed.

(** X12. No keyword [main] loads from the keywords file is empty, so an
    empty line of a scanned file never counts as a keyword match. *)
Theorem loaded_keywords_never_match_an_empty_line (kwf : File) :
  Forall (fun kw => kw ≠ "") (loadKeywords kwf) /\
  forall kwLine line st,
    kwLoop kwLine "" line (loadKeywords kwf) st = st.
Proof.
  assert (Forall (fun kw => kw ≠ "") (loadKeywords kwf)) as Hkws.
  { unfold loadKeywords. rewrite loadLines_spec. simpl.
    apply Forall_forall. by intros kw [? _]%list_elem_of_filter. }
  split; [done|]. intros. by apply kwLoop_blank_line.
Qed.

Lemma ignoreLoop_true (filePath : string) (ignored_types : list string) :
  ignoreLoop filePath ignored_types = true <->
  exists ignore,
    ignore ∈ ignored_types /\
    Contains (ToLower filePath) (ToLower ignore) = true.
Proof.
  induction ignored_types as [|ignore rest IH]; simpl.
  - split; [done|]. by intros (? & ?%elem_of_nil & _).
  - destruct (Contains (ToLower filePath) (ToLower ignore)) eqn:Hc.
    + split; [|done]. intros _. exists ignore. split; [by left|done].
    + rewrite IH. split.
      * intros (i & Hi & Hci). exists i. split; [by right|done].
      * intros (i & [->|Hi]%elem_of_cons & Hci); [congruence|by exists i].
Qed.

(** X13. With the ignore list [main] merges from the ignore file and the
    ignore-types file, a path is skipped exactly when its lower-case form
    contains the lower-case form of a trimmed, non-blank line of one of
    the two files. *)
Theorem ignored_iff_some_line_occurs (igf igtf : File) (filePath : string) :
  ignoreLoop filePath (loadIgnored igf igtf) = true <->
  exists text,
    (text ∈ Lines (NewScanner maxTokenSize igf) \/
     text ∈ Lines (NewScanner maxTokenSize igtf)) /\
    TrimSpace text ≠ "" /\
    Contains (ToLower filePath) (ToLower (TrimSpace text)) = true.
Proof.
  rewrite ignoreLoop_true. unfold loadIgnored.
  rewrite (loadLines_spec (Lines (NewScanner maxTokenSize igtf))).
  rewrite (loadLines_spec (Lines (NewScanner maxTokenSize igf))). simpl.
  split.
  - intros (ignore & Hin & Hc).
    apply elem_of_app in Hin
      as [[Hne (text & -> & Ht)%list_elem_of_fmap]%list_elem_of_filter
         |[Hne (text & -> & Ht)%list_elem_of_fmap]%list_elem_of_filter];
      exists text; auto.
  - intros (text & Hin & Hne & Hc). exists (TrimSpace text). split; [|done].
    apply elem_of_app. destruct Hin as [Hin|Hin]; [left|right];
      apply list_elem_of_filter; (split; [done|]);
      apply list_elem_of_fmap; by exists text.
Qed.

End InputFileResults.

(** ** The command line *)

Section CommandLine.
Context `{L : Lib}.

Lemma has_byte_app c (s1 s2 : string) :
  has_byte c (s1 +:+ s2) = has_byte c s1 || has_byte c s2.
Proof.
  induction s1 as [|d s1 IH]; [done|].
  change (has_byte c (String d (s1 +:+ s2)) =
          has_byte c (String d s1) || has_byte c s2).
  simpl. by rewrite IH, orb_assoc.
Qed.

Lemma Contains_has_byte c (s sub : string) :
  Contains s sub = true -> has_byte c sub = true -> has_byte c s = true.
Proof.
  intros (pre & post & ->)%Contains_substring Hsub.
  rewrite !has_byte_app, Hsub. by rewrite orb_true_r.
Qed.

Lemma Contains_no_byte c (s sub : string) :
  has_byte c s = false -> has_byte c sub = true -> Contains s sub = false.
Proof.
  intros Hs Hsub. destruct (Contains s sub) eqn:Hc; [|done].
  by rewrite (Contains_has_byte c s sub Hc Hsub) in Hs.
Qed.

Lemma Split_nonempty (s : string) sep : Split s sep ≠ [].
Proof.
  destruct s as [|c s]; simpl; [done|].
  destruct (Ascii.eqb c sep); [done|]. by destruct (Split s sep).
Qed.

Lemma Split_two (s : string) sep :
  has_byte sep s = true -> exists x y rest, Split s sep = x :: y :: rest.
Proof.
  induction s as [|c s IH]; simpl; [done|].
  rewrite Ascii.eqb_sym. destruct (Ascii.eqb c sep); simpl.
  - intros _. pose proof (Split_nonempty s sep).
    destruct (Split s sep) as [|y rest]; [done|]. by eexists _, _, _.
  - intros (x & y & rest & ->)%IH. by eexists _, _, _.
Qed.

Lemma Split_no_sep (s : string) sep :
  has_byte sep s = false -> Split s sep = [s].
Proof.
  induction s as [|c s IH]; simpl; [done|].
  rewrite Ascii.eqb_sym. destruct (Ascii.eqb c sep); simpl; [done|].
  by intros ->%IH.
Qed.

Lemma index1_Split (arg pat : string) :
  Contains arg pat = true -> has_byte "="%char pat = true ->
  exists v, index1 (Split arg "=") = Done v.
Proof.
  intros Hc Hp.
  destruct (Split_two arg "=" (Contains_has_byte _ _ _ Hc Hp))
    as (x & y & rest & ->).
  by exists y.
Qed.

Lemma parseArg_Done (arg : string) (o : Options) :
  exists step, parseArg arg o = Done step.
Proof.
  unfold parseArg.
  repeat match goal with
  | |- context [if Contains arg ?pat then _ else _] =>
      destruct (Contains arg pat) eqn:?;
      [ destruct (index1_Split arg pat) as [v ->]; [done..|]; simpl;
        repeat case_match; by eexists
      | ]
  end.
  by eexists.
Qed.

(** X14. The loop of [main] over its arguments never panics: whenever it
    takes element 1 of [strings.Split(arg, "=")], the argument holds an
    [=] and the slice has two elements at least. *)
Theorem parseArgs_never_panics (args : list string) (o : Options)
    (printed : list string) :
  exists result, parseArgs args o printed = Done result.
Proof.
  revert o printed. induction args as [|arg args IH]; intros o printed; simpl.
  - by eexists.
  - destruct (parseArg_Done arg o) as [[o' p|p] ->]; simpl; [apply IH|].
    by eexists.
Qed.

Lemma prefix_nil (s : string) : String.prefix "" s = true.
Proof. by destruct s. Qed.

(** X15. An argument [key=value] whose value holds no [=] sets the path
    variable of that key to the value, prints nothing and leaves the
    other variables as they are, for each of the seven keys that name a
    path. *)
Theorem path_argument_sets_its_option (k : PathOption) (v : string)
    (o : Options) :
  has_byte "="%char v = false ->
  parseArg (key k +:+ "=" +:+ v) o = Done (Next (setPath k v o) []).
Proof.
  intros Hv.
  assert (forall pat, has_byte "="%char pat = true -> Contains v pat = false)
    as Hno by (intros; by eapply Contains_no_byte).
  assert (Split v "=" = [v]) as Hsplit by by apply Split_no_sep.
  unfold parseArg.
  destruct k; cbv [key String.append]; cbn [Contains Split];
    simpl String.prefix; rewrite ?prefix_nil; simpl;
    rewrite ?Hno by done; simpl.
  all: by rewrite Hsplit.
Qed.

Lemma Split_at_sep (v rest : string) sep :
  has_byte sep v = false ->
  Split (v +:+ String sep rest) sep = v :: Split rest sep.
Proof.
  induction v as [|c v IH]; intros Hv.
  - cbv [String.append]. cbn [Split]. by rewrite Ascii.eqb_refl.
  - change (Split (String c (v +:+ String sep rest)) sep =
            String c v :: Split rest sep).
    simpl in Hv. apply orb_false_iff in Hv as [Hc Hv].
    cbn [Split]. rewrite Ascii.eqb_sym, Hc, IH by done. done.
Qed.

(** X16. The value of [directory=] is cut at its first [=]: whatever
    follows it, the directory is what stands between the first and the
    second [=] of the argument. *)
Theorem directory_value_is_cut_at_equals (v rest : string) (o : Options) :
  has_byte "="%char v = false ->
  parseArg ("directory=" +:+ v +:+ "=" +:+ rest) o =
  Done (Next (setPath Directory v o) []).
Proof.
  intros Hv. unfold parseArg.
  assert (Contains ("directory=" +:+ v +:+ "=" +:+ rest) "directory=" = true)
    as -> by (apply Contains_substring; by exists "", (v +:+ "=" +:+ rest)).
  change ("directory=" +:+ v +:+ "=" +:+ rest)
    with ("directory" +:+ String "=" (v +:+ String "=" rest)).
  rewrite (Split_at_sep "directory" _ "=") by done.
  by rewrite (Split_at_sep v rest "=").
Qed.

End CommandLine.

(** ** The walk of the mode [newthread=false] and its workers *)

Section WorkersResults.
Context `{L : Lib}.
Implicit Types (w : World) (walk pre post : list WalkEntry).
Implicit Types (ignored_types : list string) (fileChan : list FoundFile).

Lemma walk_past_undispatched workers ignored_types pre walk w fileChan :
  Forall (fun e => dispatched ignored_types e = false) pre ->
  SameThreadFileFinder_walk workers ignored_types (pre ++ walk) w fileChan =
  SameThreadFileFinder_walk workers ignored_types walk
    (foldl send_err w (pre ≫= walkError)) fileChan.
Proof.
  intros Hpre. revert w.
  induction Hpre as [|e pre He _ IH]; intros w; [done|].
  rewrite bind_cons, foldl_app. cbn [app SameThreadFileFinder_walk].
  change (walkError e)
    with (match err e with
          | Some msg => [errLine (path e) msg]
          | None => []
          end).
  pose proof (dispatched_cases ignored_types e) as Hd. rewrite He in Hd.
  destruct (err e) as [msg|]; simpl; [apply IH|].
  destruct (IsDir e); simpl in *; [apply IH|].
  destruct (ignoreLoop (path e) ignored_types); [apply IH|done].
Qed.

Lemma walk_with_a_worker workers ignored_types walk w fileChan :
  SameThreadFileFinder_walk (S workers) ignored_types walk w fileChan =
  WalkReturned
    (foldl (SameThread_walkFunc ignored_types) (w, fileChan) walk).1
    (foldl (SameThread_walkFunc ignored_types) (w, fileChan) walk).2.
Proof.
  revert w fileChan. induction walk as [|e walk IH]; intros w fileChan; [done|].
  cbn [SameThreadFileFinder_walk foldl]. unfold SameThread_walkFunc at 2 4.
  destruct (err e) as [msg|]; [apply IH|].
  destruct (IsDir e); [apply IH|].
  destruct (ignoreLoop (path e) ignored_types); apply IH.
Qed.

(** X19. With a negative [threadcount] the mode [newthread=false] starts
    no worker, and the walk blocks for good at the first entry it
    dispatches: the error lines of the entries before it have been sent,
    [FoundFiles] has been incremented for it, and [SameThreadFileFinder]
    does not return, so [main] never reaches [wg.Wait()] and its summary.
    With a worker the walk returns, with what [SameThreadFileFinder]
    sends. *)
Theorem negative_threadcount_blocks_the_walk (NumCPU threadCount : Z)
    ignored_types pre (e : WalkEntry) post w :
  threadCount < 0 ->
  Forall (fun e' => dispatched ignored_types e' = false) pre ->
  dispatched ignored_types e = true ->
  startedWorkers (defaultThreadCount NumCPU threadCount) = 0%nat /\
  SameThreadFileFinder_walk
    (startedWorkers (defaultThreadCount NumCPU threadCount))
    ignored_types (pre ++ e :: post) w [] =
    WalkBlocked (add_found (foldl send_err w (pre ≫= walkError)))
      (mkFoundFile (path e) []) /\
  forall workers,
    SameThreadFileFinder_walk (S workers) ignored_types (pre ++ e :: post)
      w [] =
    WalkReturned
      (SameThreadFileFinder (pre ++ e :: post) ignored_types w).1
      (SameThreadFileFinder (pre ++ e :: post) ignored_types w).2.
Proof.
  intros Hneg Hpre He.
  assert (startedWorkers (defaultThreadCount NumCPU threadCount) = 0%nat)
    as Hnone.
  { unfold startedWorkers, defaultThreadCount.
    rewrite decide_False by lia. lia. }
  split; [done|]. split; [|intros workers; apply walk_with_a_worker].
  rewrite Hnone, walk_past_undispatched by done.
  cbn [SameThreadFileFinder_walk].
  pose proof (dispatched_cases ignored_types e) as Hd. rewrite He in Hd.
  destruct (err e) as [msg|]; [done|].
  destruct (IsDir e); [done|].
  by destruct (ignoreLoop (path e) ignored_types).
Qed.

End WorkersResults.

(** ** The collector of the error lines, stopped anywhere *)

Section CollectorResults.

Lemma steps_step k s :
  Collecting.steps (S k) s = Collecting.step (Collecting.steps k s).
Proof.
  revert s. induction k as [|k IH]; intros s; [done|].
  change (Collecting.steps (S (S k)) s)
    with (Collecting.steps (S k) (Collecting.step s)).
  by rewrite IH.
Qed.

Lemma steps_add a b s :
  Collecting.steps (a + b) s = Collecting.steps b (Collecting.steps a s).
Proof. revert s. induction a as [|a IH]; intros s; [done|]. apply IH. Qed.

Lemma collector_finishes errs numErrors lines :
  Collecting.steps (3 * length errs)
    (Collecting.mkState Collecting.AtRange errs numErrors lines) =
  Collecting.mkState Collecting.AtRange []
    (ErrorCollector errs numErrors).2
    (lines ++ (ErrorCollector errs numErrors).1).
Proof.
  revert numErrors lines.
  induction errs as [|msg errs IH]; intros numErrors lines.
  - simpl. by rewrite app_nil_r.
  - replace (3 * length (msg :: errs))%nat with (3 + 3 * length errs)%nat
      by (simpl; lia).
    rewrite steps_add.
    change (Collecting.steps 3
              (Collecting.mkState Collecting.AtRange (msg :: errs) numErrors
                 lines))
      with (Collecting.mkState Collecting.AtRange errs
              (AddUint64 numErrors 1) (lines ++ [msg +:+ nl])).
    rewrite IH. cbn [ErrorCollector].
    destruct (ErrorCollector errs (AddUint64 numErrors 1)) as [out n'].
    simpl. by rewrite <- app_assoc.
Qed.

Lemma collector_invariant errs (n : nat) k :
  exists handled,
    Collecting.f (Collecting.steps k
                    (Collecting.start errs (Z.of_nat n mod 2 ^ 64))) =
      (fun msg => msg +:+ nl) <$> handled /\
    match Collecting.control
            (Collecting.steps k
               (Collecting.start errs (Z.of_nat n mod 2 ^ 64))) with
    | Collecting.AtRange =>
        errs = handled ++
               Collecting.errorChan
                 (Collecting.steps k
                    (Collecting.start errs (Z.of_nat n mod 2 ^ 64))) /\
        Collecting.numErrors
          (Collecting.steps k
             (Collecting.start errs (Z.of_nat n mod 2 ^ 64))) =
          Z.of_nat (n + length handled) mod 2 ^ 64
    | Collecting.Received msg =>
        errs = handled ++ msg ::
               Collecting.errorChan
                 (Collecting.steps k
                    (Collecting.start errs (Z.of_nat n mod 2 ^ 64))) /\
        Collecting.numErrors
          (Collecting.steps k
             (Collecting.start errs (Z.of_nat n mod 2 ^ 64))) =
          Z.of_nat (n + length handled) mod 2 ^ 64
    | Collecting.Counted msg =>
        errs = handled ++ msg ::
               Collecting.errorChan
                 (Collecting.steps k
                    (Collecting.start errs (Z.of_nat n mod 2 ^ 64))) /\
        Collecting.numErrors
          (Collecting.steps k
             (Collecting.start errs (Z.of_nat n mod 2 ^ 64))) =
          Z.of_nat (n + length handled + 1) mod 2 ^ 64
    end.
Proof.
  induction k as [|k (handled & Hf & Hs)].
  - exists []. simpl. split; [done|]. split; [done|].
    by rewrite Nat.add_0_r.
  - rewrite steps_step.
    destruct (Collecting.steps k _) as [c pending cnt lines]. simpl in *.
    unfold Collecting.step. simpl.
    destruct c as [|msg|msg]; simpl.
    + destruct pending as [|msg rest]; simpl; [by exists handled|].
      by exists handled.
    + exists handled. destruct Hs as [-> ->]. split; [done|]. split; [done|].
      rewrite AddUint64_succ. f_equal. lia.
    + exists (handled ++ [msg]). destruct Hs as [-> ->].
      split; [by rewrite Hf, fmap_app|]. split; [by rewrite <- app_assoc|].
      rewrite length_app. simpl. f_equal. lia.
Qed.

(** X20. [main] returns without waiting for [ErrorCollector].  Wherever
    the collector is stopped, the lines it has appended to the error file
    are the first of the lines it appends when it is left to finish, and
    [NumErrors] counts the lines appended so far, or one more when the
    collector was stopped between its [atomic.AddUint64] and its
    [WriteString]; left to finish, it ends as [ErrorCollector] does. *)
Theorem ErrorCollector_stopped_anywhere (errs : list string) (n k : nat) :
  Collecting.f (Collecting.steps k
                  (Collecting.start errs (Z.of_nat n mod 2 ^ 64)))
    `prefix_of` (ErrorCollector errs (Z.of_nat n mod 2 ^ 64)).1 /\
  (Collecting.numErrors
     (Collecting.steps k (Collecting.start errs (Z.of_nat n mod 2 ^ 64))) =
     Z.of_nat
       (n + length (Collecting.f
                      (Collecting.steps k
                         (Collecting.start errs (Z.of_nat n mod 2 ^ 64)))))
     mod 2 ^ 64 \/
   Collecting.numErrors
     (Collecting.steps k (Collecting.start errs (Z.of_nat n mod 2 ^ 64))) =
     Z.of_nat
       (n + length (Collecting.f
                      (Collecting.steps k
                         (Collecting.start errs (Z.of_nat n mod 2 ^ 64))))
        + 1)
     mod 2 ^ 64) /\
  Collecting.steps (3 * length errs)
    (Collecting.start errs (Z.of_nat n mod 2 ^ 64)) =
  Collecting.mkState Collecting.AtRange []
    (ErrorCollector errs (Z.of_nat n mod 2 ^ 64)).2
    (ErrorCollector errs (Z.of_nat n mod 2 ^ 64)).1.
Proof.
  destruct (collector_invariant errs n k) as (handled & Hf & Hs).
  split; [|split]; [| |by unfold Collecting.start; rewrite collector_finishes];
    rewrite ?ErrorCollector_spec, Hf, ?length_fmap; simpl.
  - destruct (Collecting.control _) as [|msg|msg]; destruct Hs as [Herrs _];
      rewrite Herrs; rewrite fmap_app; by eexists.
  - destruct (Collecting.control _) as [|msg|msg]; destruct Hs as [_ ->];
      [by left|by left|by right].
Qed.

End CollectorResults.

(** ** The further theorems at the example inputs *)

Lemma run_counters_ordered_witness :
  0 <= SearchedFiles (counters (@run Fragment.lib false Examples.fs
         Examples.walk_mixed ["ERROR"] Examples.patterns ["system32"]))
    <= FoundFiles (counters (@run Fragment.lib false Examples.fs
         Examples.walk_mixed ["ERROR"] Examples.patterns ["system32"])) /\
  FoundFiles (counters (@run Fragment.lib false Examples.fs
         Examples.walk_mixed ["ERROR"] Examples.patterns ["system32"]))
    <= Z.of_nat (length Examples.walk_mixed) /\
  Z.of_nat (length (output_file (@run Fragment.lib false Examples.fs
         Examples.walk_mixed ["ERROR"] Examples.patterns ["system32"])))
    <= SearchedFiles (counters (@run Fragment.lib false Examples.fs
         Examples.walk_mixed ["ERROR"] Examples.patterns ["system32"])) /\
  NumErrors (counters (@run Fragment.lib false Examples.fs
         Examples.walk_mixed ["ERROR"] Examples.patterns ["system32"])) +
  Z.of_nat (length (output_file (@run Fragment.lib false Examples.fs
         Examples.walk_mixed ["ERROR"] Examples.patterns ["system32"])))
    <= Z.of_nat (length Examples.walk_mixed).
Proof.
  apply (@run_counters_ordered Fragment.lib false Examples.fs
           Examples.walk_mixed ["ERROR"] Examples.patterns ["system32"]).
  by vm_compute.
Defined.

Lemma short_file_is_never_too_long_witness :
  Err (NewScanner maxTokenSize Examples.a_txt) = None.
Proof.
  apply (short_file_is_never_too_long Examples.a_txt). by vm_compute.
Defined.

Lemma clean_scan_reports_all_matches_witness :
  @NewThreadSearchFile Fragment.lib Examples.fs "a.txt" ["ERROR"]
    Examples.patterns Examples.w0 =
    match @fileDescriptors Fragment.lib ["ERROR"]
            (@compiled Fragment.lib Examples.patterns)
            (Lines (NewScanner maxTokenSize Examples.a_txt)) 1 with
    | [] => add_searched Examples.w0
    | d :: ds =>
        send_file (add_searched Examples.w0)
          (mkFoundFile (Fragment.trim "a.txt")
             (render kwLine_NewThread <$> d :: ds))
    end /\
  @SameThreadSearchFile_file Fragment.lib Examples.fs ["ERROR"]
    Examples.patterns Examples.w0 (mkFoundFile "a.txt" []) =
    match @fileDescriptors Fragment.lib ["ERROR"]
            (@compiled Fragment.lib Examples.patterns)
            (Lines (NewScanner maxTokenSize Examples.a_txt)) 1 with
    | [] => add_searched Examples.w0
    | d :: ds =>
        send_file (add_searched Examples.w0)
          (mkFoundFile "a.txt" (render kwLine_SameThread <$> d :: ds))
    end.
Proof.
  apply (@clean_scan_reports_all_matches Fragment.lib Examples.fs "a.txt"
           ["ERROR"] Examples.patterns Examples.w0 Examples.a_txt).
  - reflexivity.
  - by vm_compute.
  - unfold Examples.patterns. by intros [|[|?%elem_of_nil]%elem_of_cons]%elem_of_cons.
  - by vm_compute.
Defined.

Lemma path_argument_sets_its_option_witness :
  @parseArg Fragment.lib (key Output +:+ "=" +:+ "found.txt") noOptions =
  Done (Next (setPath Output "found.txt" noOptions) []).
Proof.
  apply (@path_argument_sets_its_option Fragment.lib Output "found.txt"
           noOptions).
  reflexivity.
Defined.

Lemma directory_value_is_cut_at_equals_witness :
  @parseArg Fragment.lib ("directory=" +:+ "/data/run" +:+ "=" +:+ "7") noOptions =
  Done (Next (setPath Directory "/data/run" noOptions) []).
Proof.
  apply (@directory_value_is_cut_at_equals Fragment.lib "/data/run" "7"
           noOptions).
  reflexivity.
Defined.

Lemma long_line_ends_the_scan_witness :
  Err (NewScanner maxTokenSize Examples.long_txt) = Some ErrTooLong.
Proof.
  apply (long_line_ends_the_scan Examples.long_txt ("ERROR here" +:+ nl)
           Examples.long_line (nl +:+ "the end")).
  - reflexivity.
  - by vm_compute.
  - by vm_compute.
Defined.

Lemma scan_error_line_witness :
  (exists s',
      @SameThreadSearchFile_task Fragment.lib 0 true Examples.fs ["ERROR"]
        Examples.nil_pattern Examples.last_scan (mkFoundFile "a.txt" []) =
      Returned s' /\
      errChan (world s') =
        errChan (world Examples.last_scan) ++
        @scanError Fragment.lib Examples.fs Examples.nil_pattern "a.txt") /\
  match @NewThreadSearchFile_task Fragment.lib 0 true Examples.fs "a.txt"
          ["ERROR"] Examples.nil_pattern Examples.last_scan with
  | Returned s' =>
      errChan (world s') =
        errChan (world Examples.last_scan) ++
        @scanError Fragment.lib Examples.fs Examples.nil_pattern "a.txt"
  | Crashed s' _ =>
      errChan (world s') = errChan (world Examples.last_scan) /\
      @scanError Fragment.lib Examples.fs Examples.nil_pattern "a.txt" =
        [errLine "a.txt" nilDeref]
  end.
Proof.
  apply (@scan_error_line Fragment.lib 0 true Examples.fs "a.txt" ["ERROR"]
           Examples.nil_pattern Examples.last_scan).
  - reflexivity.
  - reflexivity.
Defined.

Lemma scanners_agree_on_a_file_witness :
  errChan (send_file (add_searched Examples.w0)
             (mkFoundFile "a.txt" ["ERROR::2"; "aa:a*:3"; "40:40:3"])) =
    errChan (send_file (add_searched Examples.w0)
               (mkFoundFile "a.txt" ["ERROR:2"; "aa:a*:3"; "40:40:3"])) /\
  length (outputChan (send_file (add_searched Examples.w0)
             (mkFoundFile "a.txt" ["ERROR::2"; "aa:a*:3"; "40:40:3"]))) =
    length (outputChan (send_file (add_searched Examples.w0)
               (mkFoundFile "a.txt" ["ERROR:2"; "aa:a*:3"; "40:40:3"]))) /\
  fileCounter (send_file (add_searched Examples.w0)
             (mkFoundFile "a.txt" ["ERROR::2"; "aa:a*:3"; "40:40:3"])) =
    fileCounter (send_file (add_searched Examples.w0)
               (mkFoundFile "a.txt" ["ERROR:2"; "aa:a*:3"; "40:40:3"])).
Proof.
  apply (@scanners_agree_on_a_file Fragment.lib 0 0 true true Examples.fs
           "a.txt" ["ERROR"] Examples.patterns Examples.last_scan
           (mkShared
              (send_file (add_searched Examples.w0)
                 (mkFoundFile "a.txt" ["ERROR::2"; "aa:a*:3"; "40:40:3"]))
              0 true)
           (mkShared
              (send_file (add_searched Examples.w0)
                 (mkFoundFile "a.txt" ["ERROR:2"; "aa:a*:3"; "40:40:3"]))
              1 false)).
  - by vm_compute.
  - by vm_compute.
Defined.

(** With [threadcount=-1] the walk of [walk_mixed] blocks at [a.txt],
    its first file. *)
Lemma negative_threadcount_blocks_the_walk_witness :
  startedWorkers (defaultThreadCount 8 (-1)) = 0%nat /\
  @SameThreadFileFinder_walk Fragment.lib
    (startedWorkers (defaultThreadCount 8 (-1))) ["system32"]
    ([mkWalkEntry "/srv" true None] ++
     mkWalkEntry "a.txt" false None ::
     [mkWalkEntry "secret.txt" false None]) Examples.w0 [] =
    WalkBlocked
      (add_found (foldl send_err Examples.w0
                    ([mkWalkEntry "/srv" true None] ≫= walkError)))
      (mkFoundFile (path (mkWalkEntry "a.txt" false None)) []) /\
  forall workers,
    @SameThreadFileFinder_walk Fragment.lib (S workers) ["system32"]
      ([mkWalkEntry "/srv" true None] ++
       mkWalkEntry "a.txt" false None ::
       [mkWalkEntry "secret.txt" false None]) Examples.w0 [] =
    WalkReturned
      (@SameThreadFileFinder Fragment.lib
         ([mkWalkEntry "/srv" true None] ++
          mkWalkEntry "a.txt" false None ::
          [mkWalkEntry "secret.txt" false None]) ["system32"] Examples.w0).1
      (@SameThreadFileFinder Fragment.lib
         ([mkWalkEntry "/srv" true None] ++
          mkWalkEntry "a.txt" false None ::
          [mkWalkEntry "secret.txt" false None]) ["system32"] Examples.w0).2.
Proof.
  apply (@negative_threadcount_blocks_the_walk Fragment.lib 8 (-1)
           ["system32"] [mkWalkEntry "/srv" true None]
           (mkWalkEntry "a.txt" false None)
           [mkWalkEntry "secret.txt" false None] Examples.w0).
  - reflexivity.
  - by repeat constructor.
  - reflexivity.
Defined.
